(** * Desktop-Automation: the OCR grounding engine and the retry loop

    A shallow embedding of [src/ocr_grounder.py] (text detection, label
    matching, icon anchor, [ground]) and of the retry loop of
    [src/notepad.py] ([launch_notepad_from_desktop]), with the properties
    of the specification stated and proved over it.

    Modelling choices.
    - Python [int] is [Z]; [//] is [Z.div] (both round toward minus
      infinity).
    - Python [float] values that the code only copies, compares or scales by
      a power of two (confidences, polygon coordinates, delays) are
      rationals [Q]: every finite float is one, and the operations used
      here are exact on them.  [int(...)] of such a value truncates toward
      zero.
    - [str] is [string], a text standing for its UTF-8 encoding, on which
      equality and the substring test are those of the text.  [str.lower]
      is Python's own, Unicode-aware function: it is not rebuilt here but
      taken as a parameter ([Lowercase]) of which only two facts are used,
      that it lower-cases ASCII text letter by letter and that it never
      empties a text.
    - Exceptions are values: a computation returns [Ok v] or [Raise e].
    - The screen, the OCR engine, the mouse and the clock are the outside
      world: what they answer is an input ([world]), what the program asks
      of them is recorded in a trace of [event]s.  Console output is not
      modelled.
    - [time.sleep] raises [ValueError] for a negative duration and refuses
      one that is too long.  How long it can wait depends on the platform,
      so the clock is a parameter ([Clock]) of which two facts are used:
      it takes every duration of up to a day, and none whose nanoseconds do
      not fit 64 bits.
    - Converting an [int] of 2^1024 or more to [float] raises
      [OverflowError].

    The file also embeds the HTTP client of [src/api_client.py] ([Api]),
    the shared grounder with its lazily built engine ([Grounder]), the
    keyboard and clipboard steps of [src/mouse_keyboard.py] and
    [src/notepad.py] ([Desk]) and [run_automation] of [src/main.py]
    ([Main]). *)

From Stdlib Require Import ZArith QArith Qround List String Ascii Bool Lia.
From Stdlib Require Import DecimalString.
Import ListNotations.

Open Scope string_scope.
Open Scope list_scope.
Open Scope Z_scope.

(** ** Exceptions and results *)

(** [GroundingError]: an exception with a message and the labels seen. *)
Record GroundingError := {
  message : string;
  available_labels : list string
}.

(** [GroundingError.__init__(message, available_labels=None)]:
    [self.available_labels = available_labels or []]. *)
Definition GroundingError_init (msg : string)
    (labels : option (list string)) : GroundingError :=
  {| message := msg;
     available_labels :=
       match labels with
       | Some (l :: ls) => l :: ls
       | Some [] => []
       | None => []
       end |}.

(** The exceptions that can travel through the modelled code. *)
Inductive exn :=
| ExGrounding (e : GroundingError)   (* GroundingError *)
| ExValueError                       (* min()/max() of an empty sequence,
                                        time.sleep of a negative duration *)
| ExOverflowError                    (* int too large for a float,
                                        time.sleep of too long a duration *)
| ExExternal (what : string).        (* raised by a collaborator: screen
                                        capture, OCR engine *)

Inductive result (A : Type) :=
| Ok (a : A)
| Raise (e : exn).
Arguments Ok {A} a.
Arguments Raise {A} e.

Definition rbind {A B} (r : result A) (k : A -> result B) : result B :=
  match r with
  | Ok a => k a
  | Raise e => Raise e
  end.

Notation "x <-- r ;; k" := (rbind r (fun x => k))
  (at level 61, r at next level, right associativity).

(** ** Strings *)

(** Lower-casing of ASCII text: one character. *)
Definition ascii_lower_char (c : ascii) : ascii :=
  let n := nat_of_ascii c in
  if (65 <=? n)%nat && (n <=? 90)%nat then ascii_of_nat (n + 32) else c.

(** Lower-casing of ASCII text: A-Z become a-z, letter by letter. *)
Fixpoint ascii_lower (s : string) : string :=
  match s with
  | EmptyString => EmptyString
  | String c r => String (ascii_lower_char c) (ascii_lower r)
  end.

(** The text is ASCII: every byte is below 128. *)
Fixpoint ascii_only (s : string) : bool :=
  match s with
  | EmptyString => true
  | String c r => (nat_of_ascii c <? 128)%nat && ascii_only r
  end.

(** [s.lower()].  Python's [str.lower] follows the Unicode case mappings,
    which depend on the neighbours of a character and can lengthen the
    text; the grounder only calls it.  It is a parameter of the model, with
    the two facts about it that the properties below use. *)
Class Lowercase := {
  lower : string -> string;
  (* on ASCII text it is ASCII lower-casing *)
  lower_ascii : forall s, ascii_only s = true -> lower s = ascii_lower s;
  (* it never empties a text *)
  lower_nonempty : forall s, lower s = EmptyString -> s = EmptyString
}.

(** [str.lower] restricted to what it does on ASCII text; it runs the
    examples below, whose texts are ASCII. *)
#[export] Instance ascii_lowercase : Lowercase := {|
  lower := ascii_lower;
  lower_ascii := fun s _ => eq_refl;
  lower_nonempty := fun s =>
    match s with
    | EmptyString => fun _ => eq_refl
    | String c r => fun H =>
        match H in (_ = e)
              return (match e with
                      | EmptyString => String c r = EmptyString
                      | String _ _ => True
                      end)
        with eq_refl => I end
    end
|}.

(** [needle in hay] on strings: [needle] occurs in [hay] at some position. *)
Fixpoint str_in (needle hay : string) : bool :=
  match hay with
  | EmptyString => prefix needle EmptyString
  | String _ rest => prefix needle hay || str_in needle rest
  end.

(** ** Data model *)

(** [TextLocation]: a detected text with its bounding box. *)
Record TextLocation := {
  text : string;
  x : Z;           (* left *)
  y : Z;           (* top *)
  width : Z;
  height : Z;
  confidence : Q
}.

(** [TextLocation.center] *)
Definition center (t : TextLocation) : Z * Z :=
  (x t + width t / 2, y t + height t / 2).

(** [TextLocation.icon_center]: 45 pixels above the centre of the text. *)
Definition icon_center (t : TextLocation) : Z * Z :=
  let (cx, cy) := center t in
  (cx, cy - 45).

(** [GroundingResult] *)
Record GroundingResult := {
  gx : Z;
  gy : Z;
  gconfidence : Q;
  text_found : string
}.

Definition coordinates (r : GroundingResult) : Z * Z := (gx r, gy r).

(** ** Text detection *)

(** One entry of [reader.readtext(...)]: a polygon, a text, a confidence. *)
Definition point : Type := Q * Q.
Definition ocr_result : Type := list point * string * Q.

(** [int(v)] on a real number: truncation toward zero. *)
Definition py_int (v : Q) : Z :=
  if Qlt_le_dec v 0 then Qceiling v else Qfloor v.

(** [min(...)] over a generator: the first smallest value; [ValueError]
    when there is none. *)
Definition py_min (xs : list Q) : result Q :=
  match xs with
  | [] => Raise ExValueError
  | v :: r => Ok (fold_left (fun m w => if Qlt_le_dec w m then w else m) r v)
  end.

(** [max(...)] over a generator: the first largest value. *)
Definition py_max (xs : list Q) : result Q :=
  match xs with
  | [] => Raise ExValueError
  | v :: r => Ok (fold_left (fun m w => if Qlt_le_dec m w then w else m) r v)
  end.

(** The body of the loop of [find_all_text]: one engine entry to one
    [TextLocation]. *)
Definition locate (r : ocr_result) : result TextLocation :=
  let '(bbox, txt, conf) := r in
  x1 <-- py_min (map fst bbox) ;;
  y1 <-- py_min (map snd bbox) ;;
  x2 <-- py_max (map fst bbox) ;;
  y2 <-- py_max (map snd bbox) ;;
  Ok {| text := txt;
        x := py_int x1;
        y := py_int y1;
        width := py_int x2 - py_int x1;
        height := py_int y2 - py_int y1;
        confidence := conf |}.

(** The [for bbox, text, conf in results] loop of [find_all_text]. *)
Fixpoint locate_all (results : list ocr_result) : result (list TextLocation) :=
  match results with
  | [] => Ok []
  | r :: rest =>
      loc <-- locate r ;;
      locs <-- locate_all rest ;;
      Ok (loc :: locs)
  end.

(** A screenshot is known to the program only through what the OCR engine
    reads from it: [reader.readtext(str(image_path))] returns the entries or
    raises. *)
Record image := { readtext : result (list ocr_result) }.

(** [OCRGrounder.find_all_text] *)
Definition find_all_text (img : image) : result (list TextLocation) :=
  results <-- readtext img ;;
  locate_all results.

(** ** Matching and grounding *)

(** The first element a [for ... if ...: matched = loc; break] loop stops
    at. *)
Definition first_such (p : TextLocation -> bool) (all_text : list TextLocation)
  : option TextLocation := find p all_text.

Definition is_exact {L : Lowercase} (target_lower : string) (loc : TextLocation)
  : bool :=
  String.eqb (lower (text loc)) target_lower.

Definition is_partial {L : Lowercase} (target_lower : string)
    (loc : TextLocation) : bool :=
  str_in target_lower (lower (text loc)) || str_in (lower (text loc)) target_lower.

(** The matching phase of [ground]: exact match first, then
    partial match. *)
Definition match_label {L : Lowercase} (all_text : list TextLocation)
    (target : string) : option TextLocation :=
  let target_lower := lower target in
  match first_such (is_exact target_lower) all_text with
  | Some loc => Some loc
  | None => first_such (is_partial target_lower) all_text
  end.

(** What [ground] does once the text locations are known. *)
Definition ground_located {L : Lowercase} (all_text : list TextLocation)
    (target : string) : result GroundingResult :=
  match all_text with
  | [] => Raise (ExGrounding
            (GroundingError_init "No text found in screenshot" (Some [])))
  | _ =>
      let labels := map text all_text in
      match match_label all_text target with
      | None => Raise (ExGrounding
            (GroundingError_init ("'" ++ target ++ "' not found in detected text")%string
                                 (Some labels)))
      | Some matched =>
          let (icon_x, icon_y) := icon_center matched in
          Ok {| gx := icon_x;
                gy := icon_y;
                gconfidence := confidence matched;
                text_found := text matched |}
      end
  end.

(** [OCRGrounder.ground] (and [ground_icon], which calls it on the shared
    grounder). *)
Definition ground {L : Lowercase} (img : image) (target : string)
  : result GroundingResult :=
  all_text <-- find_all_text img ;;
  ground_located all_text target.

Definition ground_icon {L : Lowercase} := ground.

(** ** The outside world and the effects of the workflow *)

(** What the program asks of its collaborators, in order. *)
Inductive event :=
| EvShowDesktop                 (* the Win+D hotkey of mk.show_desktop *)
| EvSleep (seconds : Q)         (* time.sleep(seconds) *)
| EvCapture (number : Z)        (* screenshot.capture_desktop(dir,
                                   "desktop_attempt_<number>.png") *)
| EvOcr                         (* the OCR engine is run on a screenshot *)
| EvDoubleClick (cx cy : Z).    (* mk.double_click(cx, cy) *)

(** The world answers each screen capture, counted from 0 in the order they
    are made, with a screenshot or with an exception. *)
Record world := { screens : nat -> result image }.

Record state := {
  captures : nat;          (* screen captures made so far *)
  trace : list event       (* events so far, oldest first *)
}.

(** Computations with effects and exceptions. *)
Definition M (A : Type) : Type := state -> state * result A.

Definition ret {A} (a : A) : M A := fun st => (st, Ok a).

Definition raise {A} (e : exn) : M A := fun st => (st, Raise e).

Definition bind {A B} (m : M A) (k : A -> M B) : M B :=
  fun st =>
    match m st with
    | (st', Ok a) => k a st'
    | (st', Raise e) => (st', Raise e)
    end.

Notation "x <- m ; k" := (bind m (fun x => k))
  (at level 61, m at next level, right associativity).
Notation "m ;; k" := (bind m (fun _ => k))
  (at level 61, right associativity).

Definition lift {A} (r : result A) : M A := fun st => (st, r).

Definition emit (e : event) : M unit :=
  fun st => ({| captures := captures st; trace := trace st ++ [e] |}, Ok tt).

(** [try: body except GroundingError as e: handler(e)]; any other
    exception passes through. *)
Definition try_except_GroundingError {A} (body : M A)
    (handler : GroundingError -> M A) : M A :=
  fun st =>
    match body st with
    | (st', Raise (ExGrounding e)) => handler e st'
    | other => other
    end.

(** The durations [time.sleep] takes are below this one on every platform:
    it keeps the duration in nanoseconds in a signed 64-bit integer. *)
Definition sleep_limit : Q := (2 ^ 63 # 10 ^ 9).

(** Which durations [time.sleep] takes.  A negative one it never takes
    ([ValueError]); a longer one than it can wait for it refuses with
    [OverflowError] (the system call can refuse with [OSError] instead; the
    two are not told apart here).  How long it can wait depends on the
    platform and on the Python version: the nanoseconds must fit 64 bits,
    the deadline must fit the system's clock, and before Python 3.11 on
    Windows the milliseconds must fit 32 bits.  The clock is therefore a
    parameter of the model, with two facts about it: it takes the durations
    of up to a day, and none from [sleep_limit] on. *)
Class Clock := {
  takes : Q -> bool;
  takes_short : forall d, (0 <= d)%Q -> (d <= 86400)%Q -> takes d = true;
  takes_limit : forall d, takes d = true -> (d < sleep_limit)%Q
}.

(** A clock that takes every duration below [sleep_limit]; it runs the
    examples below, whose sleeps last seconds. *)
#[export] Instance nanosecond_clock : Clock.
Proof.
  refine {| takes := fun d => if Qlt_le_dec d sleep_limit then true else false |}.
  - intros d _ Hd. destruct (Qlt_le_dec d sleep_limit) as [Hlt|Hge];
      [reflexivity|]. exfalso.
    apply (Qlt_not_le 86400 sleep_limit); [reflexivity|].
    now apply Qle_trans with d.
  - intros d. destruct (Qlt_le_dec d sleep_limit) as [Hlt|Hge];
      [intros _; exact Hlt | discriminate].
Defined.

(** [time.sleep(seconds)]: [ValueError] "sleep length must be non-negative",
    [OverflowError] "timestamp too large". *)
Definition sleep {K : Clock} (seconds : Q) : M unit :=
  if Qlt_le_dec seconds 0 then raise ExValueError
  else if takes seconds then emit (EvSleep seconds)
  else raise ExOverflowError.

(** [screenshot.capture_desktop(config.screenshots_dir,
    f"desktop_attempt_{number}.png")] *)
Definition capture_desktop (w : world) (number : Z) : M image :=
  fun st =>
    ({| captures := S (captures st);
        trace := trace st ++ [EvCapture number] |},
     screens w (captures st)).

(** [ground_icon] as a step of the workflow. *)
Definition run_ground_icon {L : Lowercase} (img : image) (target : string)
  : M GroundingResult :=
  emit EvOcr ;; lift (ground_icon img target).

(** [mk.show_desktop] *)
Definition show_desktop {K : Clock}
    : M unit := emit EvShowDesktop ;; sleep (1 # 2).

(** [mk.double_click] *)
Definition double_click (cx cy : Z) : M unit := emit (EvDoubleClick cx cy).

(** [min(a, b)] on numbers: [b] only when it is smaller. *)
Definition py_min2 (a b : Q) : Q := if Qlt_le_dec b a then b else a.

(** [wait_for_notepad(timeout=5.0)] *)
Definition wait_for_notepad {K : Clock} (timeout : Q) : M bool :=
  sleep (py_min2 timeout 2) ;; ret true.

(** ** Configuration *)

(** The fields of [Config] that the workflow reads. *)
Record Config := {
  max_retries : Z;
  retry_delay : Q
}.

(** [range(n)] *)
Definition range (n : Z) : list Z := map Z.of_nat (seq 0 (Z.to_nat n)).

(** ** The retry loop of [launch_notepad_from_desktop] *)

(** How one round of the [for] loop ends: the function returned, or the
    round failed. *)
Inductive round_end :=
| Launched
| Failed (e : GroundingError).

(** The [try] block of one round. *)
Definition try_block {L : Lowercase} {K : Clock}
    (cfg : Config) (w : world) (attempt : Z)
  : M round_end :=
  screenshot_path <- capture_desktop w (attempt + 1) ;
  result <- run_ground_icon screenshot_path "Notepad" ;
  double_click (gx result) (gy result) ;;
  wait_for_notepad 5 ;;
  ret Launched.

(** [2 ** attempt] as the [float] that the product with [retry_delay]
    needs: "int too large to convert to float" from 2^1024 on. *)
Definition float_of_power (attempt : Z) : result Q :=
  if 1024 <=? attempt then Raise ExOverflowError
  else Ok (inject_Z (2 ^ attempt)).

(** The [except GroundingError as e] block of one round.  What it raises
    leaves the loop. *)
Definition except_block {K : Clock}
    (cfg : Config) (attempt : Z) (e : GroundingError)
  : M round_end :=
  factor <- lift (float_of_power attempt) ;
  let wait_time := (retry_delay cfg * factor)%Q in
  (if attempt <? max_retries cfg - 1 then sleep wait_time else ret tt) ;;
  ret (Failed e).

(** One round of the loop: the [try] statement. *)
Definition round {L : Lowercase} {K : Clock}
    (cfg : Config) (w : world) (attempt : Z)
  : M round_end :=
  try_except_GroundingError (try_block cfg w attempt) (except_block cfg attempt).

(** How the [for] loop ends. *)
Inductive loop_end :=
| Returned
| Exhausted (last_error : option GroundingError).

(** [for attempt in rounds: try: ... return except GroundingError: ...] *)
Fixpoint for_attempt {L : Lowercase} {K : Clock}
    (cfg : Config) (w : world) (rounds : list Z)
    (last_error : option GroundingError) : M loop_end :=
  match rounds with
  | [] => ret (Exhausted last_error)
  | attempt :: rest =>
      r <- round cfg w attempt ;
      match r with
      | Launched => ret Returned
      | Failed e => for_attempt cfg w rest (Some e)
      end
  end.

(** Lines 43-76: the loop and the final [raise]. *)
Definition retry_loop {L : Lowercase} {K : Clock}
    (cfg : Config) (w : world) : M unit :=
  r <- for_attempt cfg w (range (max_retries cfg)) None ;
  match r with
  | Returned => ret tt
  | Exhausted (Some last_error) => raise (ExGrounding last_error)
  | Exhausted None =>
      raise (ExGrounding
        (GroundingError_init "Failed to launch Notepad after all retries" None))
  end.

(** [launch_notepad_from_desktop] *)
Definition launch_notepad_from_desktop {L : Lowercase} {K : Clock}
    (cfg : Config) (w : world)
  : M unit :=
  show_desktop ;;
  sleep (1 # 2) ;;
  retry_loop cfg w.

(** Nothing captured, nothing done yet. *)
Definition initial_state : state := {| captures := 0; trace := [] |}.

(** The sleeps of a trace, in order. *)
Fixpoint sleeps (tr : list event) : list Q :=
  match tr with
  | [] => []
  | EvSleep d :: r => d :: sleeps r
  | _ :: r => sleeps r
  end.

(** The number of screen captures of a trace. *)
Fixpoint capture_count (tr : list event) : nat :=
  match tr with
  | [] => 0
  | EvCapture _ :: r => S (capture_count r)
  | _ :: r => capture_count r
  end.

(** ** Vocabulary of the statements and example desktops *)

(** [occurs_in a b]: the string [a] occurs in [b] as a substring. *)
Definition occurs_in (a b : string) : Prop :=
  exists p s, b = (p ++ a ++ s)%string.

(** The result [ground] builds from the matched location. *)
Definition result_of (matched : TextLocation) : GroundingResult :=
  {| gx := fst (icon_center matched);
     gy := snd (icon_center matched);
     gconfidence := confidence matched;
     text_found := text matched |}.

(** The polygon the engine reports for an upright box: its four corners. *)
Definition box (l t r b : Z) : list point :=
  [(inject_Z l, inject_Z t); (inject_Z r, inject_Z t);
   (inject_Z r, inject_Z b); (inject_Z l, inject_Z b)].

(** A screenshot on which the engine reads [entries]. *)
Definition screenshot_of (entries : list ocr_result) : image :=
  {| readtext := Ok entries |}.

Definition desktop_with_notepad : image :=
  screenshot_of [ (box 10 20 110 40, "My Notepad++", (8 # 10)%Q);
                  (box 100 200 150 220, "NOTEPAD", (9 # 10)%Q) ].

Definition desktop_without_notepad : image :=
  screenshot_of [ (box 10 20 110 40, "Recycle Bin", (8 # 10)%Q);
                  (box 10 120 90 140, "Chrome", (7 # 10)%Q) ].

Definition empty_desktop : image := screenshot_of [].

(** An entry as the recognition engine reports it: a polygon with at least
    one point (EasyOCR gives the corners of the text) and a confidence that
    is a probability. *)
Definition reported (r : ocr_result) : Prop :=
  fst (fst r) <> [] /\ (0 <= snd r <= 1)%Q.

(** [m] is a smallest element of [xs]. *)
Definition is_min (m : Q) (xs : list Q) : Prop :=
  In m xs /\ forall v, In v xs -> (m <= v)%Q.

(** [m] is a largest element of [xs]. *)
Definition is_max (m : Q) (xs : list Q) : Prop :=
  In m xs /\ forall v, In v xs -> (v <= m)%Q.

(** The round that uses the [n]-th screen capture fails with the
    [GroundingError] [e]: the capture succeeds and grounding "Notepad" on
    the screenshot raises [e]. *)
Definition attempt_fails {L : Lowercase} (w : world) (n : nat)
    (e : GroundingError) : Prop :=
  exists img, screens w n = Ok img /\
              ground_icon img "Notepad" = Raise (ExGrounding e).

(** [time.sleep] takes the duration: it is not negative and not too
    long. *)
Definition accepted {K : Clock} (seconds : Q) : Prop :=
  (0 <= seconds)%Q /\ takes seconds = true.

(** The backoff delays after the rounds 0..k-1 are durations [time.sleep]
    takes. *)
Definition backoffs_accepted {K : Clock} (cfg : Config) (k : nat) : Prop :=
  forall i, (i < k)%nat ->
            accepted (retry_delay cfg * inject_Z (2 ^ Z.of_nat i)).

(** The events of a failed round that is followed by its backoff sleep. *)
Definition backoff_round (cfg : Config) (attempt : Z) : list event :=
  [ EvCapture (attempt + 1); EvOcr;
    EvSleep (retry_delay cfg * inject_Z (2 ^ attempt))%Q ].

(** The default retry settings of [Config.load]. *)
Definition three_tries : Config := {| max_retries := 3; retry_delay := 1 |}.

(** A desktop that shows nothing, then no Notepad, then Notepad. *)
Definition settling_world : world :=
  {| screens := fun n =>
       match n with
       | 0%nat => Ok empty_desktop
       | 1%nat => Ok desktop_without_notepad
       | _ => Ok desktop_with_notepad
       end |}.

(** A desktop on which Notepad never shows. *)
Definition barren_world : world :=
  {| screens := fun n =>
       match n with
       | 0%nat => Ok empty_desktop
       | 1%nat => Ok desktop_without_notepad
       | _ => Ok (screenshot_of [ (box 10 120 90 140, "Chrome", (7 # 10)%Q) ])
       end |}.

(** A screen that cannot be captured the first time. *)
Definition unreadable_screen_world : world :=
  {| screens := fun n =>
       match n with
       | 0%nat => Raise (ExExternal "ScreenShotError")
       | _ => Ok desktop_with_notepad
       end |}.

Definition no_text_error : GroundingError :=
  {| message := "No text found in screenshot"; available_labels := [] |}.

Definition not_found_error (labels : list string) : GroundingError :=
  {| message := "'Notepad' not found in detected text";
     available_labels := labels |}.

(** The number of double clicks of a trace. *)
Fixpoint click_count (tr : list event) : nat :=
  match tr with
  | [] => 0
  | EvDoubleClick _ _ :: r => S (click_count r)
  | _ :: r => click_count r
  end.

(** The sum of a list of durations. *)
Definition total (ds : list Q) : Q := fold_right Qplus 0%Q ds.

(** ** The JSONPlaceholder client ([src/api_client.py]) *)

(** [str(n)] for an [int], as an f-string prints it. *)
Definition str_of_int (n : Z) : string := NilZero.string_of_int (Z.to_int n).

(** [l[:count]]: the first [count] elements, or all but the last [-count]
    when [count] is negative. *)
Definition slice_to {A : Type} (l : list A) (count : Z) : list A :=
  if count <? 0
  then firstn (Z.to_nat (Z.of_nat (List.length l) + count)) l
  else firstn (Z.to_nat count) l.

Module Api.

(** A JSON value, as far as the client handles it: it copies values and
    never looks inside them. *)
Inductive json :=
| JNull
| JNum (n : Z)
| JStr (s : string).

(** An element of the answer, as the loop sees it: a JSON object, that
    is the [dict] that [response.json()] builds, in which a key is bound to
    the value of its first pair, or any other JSON value (a number, a
    string, a list, a boolean, null). *)
Inductive item :=
| Obj (pairs : list (string * json))
| NotObj.

Fixpoint dict_get (d : list (string * json)) (key : string) : option json :=
  match d with
  | [] => None
  | (k, v) :: rest => if String.eqb k key then Some v else dict_get rest key
  end.

(** [Post] *)
Record Post := {
  id : json;
  user_id : json;
  title : json;
  body : json
}.

(** The exceptions of the client. *)
Inductive error :=
| RequestException (what : string)  (* requests.RequestException, from
                                       [get] or [raise_for_status] *)
| KeyError (key : string)
| TypeError                         (* subscripting what is not a dict or
                                       not a list *)
| OverflowError                     (* time.sleep refusing the duration *)
| APIError (msg : string).

Inductive outcome (A : Type) :=
| Return (a : A)
| Throw (e : error).
Arguments Return {A} a.
Arguments Throw {A} e.

Definition obind {A B} (o : outcome A) (k : A -> outcome B) : outcome B :=
  match o with
  | Return a => k a
  | Throw e => Throw e
  end.

(** [item[key]] with a string key *)
Definition getitem (it : item) (key : string) : outcome json :=
  match it with
  | Obj d =>
      match dict_get d key with
      | Some v => Return v
      | None => Throw (KeyError key)
      end
  | NotObj => Throw TypeError
  end.

(** [Post(id=item["id"], user_id=item["userId"], title=item["title"],
    body=item["body"])] *)
Definition make_post (it : item) : outcome Post :=
  obind (getitem it "id") (fun i =>
  obind (getitem it "userId") (fun u =>
  obind (getitem it "title") (fun t =>
  obind (getitem it "body") (fun b =>
  Return {| id := i; user_id := u; title := t; body := b |})))).

(** The [for item in ...: posts.append(Post(...))] loop. *)
Fixpoint make_posts (items : list item) : outcome (list Post) :=
  match items with
  | [] => Return []
  | it :: rest =>
      obind (make_post it) (fun p =>
      obind (make_posts rest) (fun ps =>
      Return (p :: ps)))
  end.

(** What the server does with one request: the request fails with a
    [RequestException] (connection, timeout, HTTP error status; also a body
    that is not JSON, for which [response.json()] of requests 2.27 and
    later raises one), or the
    response carries a JSON array, or it carries another JSON value that
    cannot be sliced (null, a boolean, a number, an object: [data[:count]]
    raises).  A JSON string is sliced and walked character by character,
    like an array of as many elements that are not objects. *)
Inductive response :=
| Fails (what : string)
| Json (data : list item)
| NotArray.

(** The server answers each request, counted from 0. *)
Record server := { answers : nat -> response }.

Inductive event :=
| Get (address : string)   (* requests.get(address, timeout=10.0) *)
| Sleep (seconds : Z).     (* time.sleep(seconds) *)

(** [time.sleep] takes the whole number of seconds: it is not negative and
    not too long for the clock. *)
Definition sleep_ok {K : Clock} (seconds : Z) : bool :=
  (0 <=? seconds) && takes (inject_Z seconds).

Definition url : string := "https://jsonplaceholder.typicode.com/posts".

Record state := {
  requests : nat;          (* requests made so far *)
  log : list event         (* events so far, oldest first *)
}.

Definition start : state := {| requests := 0; log := [] |}.

(** How one round of the loop ends. *)
Inductive round_end :=
| Fetched (posts : list Post)   (* [return posts] *)
| Retry.                        (* the [except] block was run *)

(** The [try] statement of one round. *)
Definition round {K : Clock} (count max_retries : Z) (srv : server)
    (attempt : Z)
    (st : state) : state * outcome round_end :=
  let st1 := {| requests := S (requests st); log := log st ++ [Get url] |} in
  match answers srv (requests st) with
  | Json data =>
      (st1, obind (make_posts (slice_to data count))
                  (fun posts => Return (Fetched posts)))
  | NotArray => (st1, Throw TypeError)
  | Fails _ =>
      let wait_time := 2 ^ attempt in
      if attempt <? max_retries - 1
      then
        if sleep_ok wait_time
        then ({| requests := requests st1;
                 log := log st1 ++ [Sleep wait_time] |},
              Return Retry)
        else (st1, Throw OverflowError)
      else (st1, Return Retry)
  end.

(** [for attempt in rounds: ...] and the [raise APIError] after it. *)
Fixpoint for_attempt {K : Clock} (count max_retries : Z) (srv : server)
    (rounds : list Z)
    (st : state) : state * outcome (list Post) :=
  match rounds with
  | [] => (st, Throw (APIError ("Failed to fetch posts after "
                                ++ str_of_int max_retries ++ " attempts")%string))
  | attempt :: rest =>
      match round count max_retries srv attempt st with
      | (st', Return (Fetched posts)) => (st', Return posts)
      | (st', Return Retry) => for_attempt count max_retries srv rest st'
      | (st', Throw e) => (st', Throw e)
      end
  end.

(** [fetch_posts(count, max_retries)] *)
Definition fetch_posts {K : Clock} (count max_retries : Z) (srv : server)
    (st : state)
  : state * outcome (list Post) :=
  for_attempt count max_retries srv (range max_retries) st.

(** The sleeps of a log, in order. *)
Fixpoint sleeps (l : list event) : list Z :=
  match l with
  | [] => []
  | Sleep d :: r => d :: sleeps r
  | _ :: r => sleeps r
  end.

(** The number of requests of a log. *)
Fixpoint gets (l : list event) : nat :=
  match l with
  | [] => 0
  | Get _ :: r => S (gets r)
  | _ :: r => gets r
  end.

(** The events of a failed round that is followed by its backoff sleep. *)
Definition backoff_round (attempt : Z) : list event :=
  [Get url; Sleep (2 ^ attempt)].

(** The request of round [n] (counted from the state's [requests]) fails. *)
Definition request_fails (srv : server) (n : nat) : Prop :=
  exists what, answers srv n = Fails what.

(** [time.sleep] takes the backoff sleeps after the failed requests
    0..k-1, of 1, 2, 4, ... seconds. *)
Definition backoffs_taken {K : Clock} (k : nat) : Prop :=
  forall i, (i < k)%nat -> sleep_ok (2 ^ Z.of_nat i) = true.

(** A post as JSONPlaceholder serves it. *)
Definition served (n : Z) (t b : string) : item :=
  Obj [("userId", JNum 1); ("id", JNum n); ("title", JStr t);
       ("body", JStr b)].

(** A server that is down twice and then serves three posts. *)
Definition waking_server : server :=
  {| answers := fun n =>
       match n with
       | 0%nat => Fails "ConnectionError"
       | 1%nat => Fails "HTTPError 503"
       | _ => Json [served 1 "t1" "b1"; served 2 "t2" "b2"; served 3 "t3" "b3"]
       end |}.

(** A server that is always down. *)
Definition dead_server : server :=
  {| answers := fun _ => Fails "ConnectionError" |}.

(** A server whose second post has no title. *)
Definition sloppy_server : server :=
  {| answers := fun _ =>
       Json [served 1 "t1" "b1";
             Obj [("userId", JNum 1); ("id", JNum 2); ("body", JStr "b2")];
             served 3 "t3" "b3"] |}.

End Api.

(** Parsing the answer to request [n] raises [e]: a selected element has
    no such key or is not an object, or the answer is not an array. *)
Definition parse_raises (count : Z) (srv : Api.server) (n : nat)
    (e : Api.error) : Prop :=
  (exists data, Api.answers srv n = Api.Json data /\
                Api.make_posts (slice_to data count) = Api.Throw e) \/
  (Api.answers srv n = Api.NotArray /\ e = Api.TypeError).

(** What an outcome of the loop of [fetch_posts] over [rounds] tells, when
    the loop started at request [first] and made [made] requests. *)
Definition fetch_outcome {K : Clock} (count max_retries : Z)
    (srv : Api.server)
    (rounds : list Z) (first made : nat)
    (out : Api.outcome (list Api.Post)) : Prop :=
  match out with
  | Api.Return posts =>
      exists n data,
        made = S n /\
        Api.answers srv (first + n) = Api.Json data /\
        Api.make_posts (slice_to data count) = Api.Return posts
  | Api.Throw (Api.APIError msg) =>
      made = List.length rounds /\
      msg = ("Failed to fetch posts after " ++ str_of_int max_retries
             ++ " attempts")%string /\
      (forall i, (i < List.length rounds)%nat ->
                 Api.request_fails srv (first + i)) /\
      (forall a, In a rounds -> a < max_retries - 1 ->
                 Api.sleep_ok (2 ^ a) = true)
  | Api.Throw (Api.KeyError key) =>
      exists n, made = S n /\
                parse_raises count srv (first + n) (Api.KeyError key)
  | Api.Throw Api.TypeError =>
      exists n, made = S n /\
                parse_raises count srv (first + n) Api.TypeError
  | Api.Throw Api.OverflowError =>
      exists a, In a rounds /\ a < max_retries - 1 /\
                Api.sleep_ok (2 ^ a) = false
  | Api.Throw (Api.RequestException _) => False
  end.

(** ** The shared grounder and its lazily loaded engine
       ([get_grounder], [OCRGrounder.reader]) *)

Module Grounder.

(** An [easyocr.Reader], known by the languages it was built for. *)
Record Reader := { reader_languages : list string }.

(** [OCRGrounder] *)
Record OCRGrounder := {
  languages : list string;
  _reader : option Reader
}.

(** [OCRGrounder.__init__(languages=None)]:
    [self.languages = languages or ['en']]. *)
Definition OCRGrounder_init (langs : option (list string)) : OCRGrounder :=
  {| languages := match langs with
                  | Some (l :: ls) => l :: ls
                  | Some [] => ["en"]
                  | None => ["en"]
                  end;
     _reader := None |}.

(** The property [OCRGrounder.reader]: the grounder afterwards, the reader,
    and the engines built on the way (each [easyocr.Reader(languages, ...)],
    taken to succeed, by its languages). *)
Definition reader (g : OCRGrounder)
  : OCRGrounder * Reader * list (list string) :=
  match _reader g with
  | Some rd => (g, rd, [])
  | None =>
      let rd := {| reader_languages := languages g |} in
      ({| languages := languages g; _reader := Some rd |}, rd, [languages g])
  end.

(** [OCRGrounder.ground] as a method: it asks for [self.reader] first, then
    grounds as [ground] does. *)
Definition ground_method {L : Lowercase} (g : OCRGrounder) (img : image)
    (target : string)
  : OCRGrounder * list (list string) * result GroundingResult :=
  let '(g', _, built) := reader g in
  (g', built, ground img target).

(** The process: the module-level [_grounder], and the engines built so
    far. *)
Record process := {
  _grounder : option OCRGrounder;
  engines_built : list (list string)
}.

Definition fresh : process := {| _grounder := None; engines_built := [] |}.

(** [get_grounder()] *)
Definition get_grounder (p : process) : process * OCRGrounder :=
  match _grounder p with
  | Some g => (p, g)
  | None =>
      let g := OCRGrounder_init None in
      ({| _grounder := Some g; engines_built := engines_built p |}, g)
  end.

(** [ground_icon(image_path, target)]: the method runs on the object that
    [_grounder] refers to, so what it changes is seen by the next call. *)
Definition ground_icon {L : Lowercase} (img : image) (target : string)
    (p : process)
  : process * result GroundingResult :=
  let (p1, g) := get_grounder p in
  let '(g', built, r) := ground_method g img target in
  ({| _grounder := Some g'; engines_built := engines_built p1 ++ built |}, r).

(** A sequence of [ground_icon] calls, with their results in order. *)
Fixpoint ground_icons {L : Lowercase} (calls : list (image * string))
    (p : process)
  : process * list (result GroundingResult) :=
  match calls with
  | [] => (p, [])
  | (img, target) :: rest =>
      let (p1, r) := ground_icon img target p in
      let (p2, rs) := ground_icons rest p1 in
      (p2, r :: rs)
  end.

End Grounder.

(** ** Typing into Notepad ([src/mouse_keyboard.py], [src/notepad.py]) *)

(** [str(v)] of a value of a post, as an f-string prints it. *)
Definition py_str (v : Api.json) : string :=
  match v with
  | Api.JNull => "None"
  | Api.JNum n => str_of_int n
  | Api.JStr s => s
  end.

(** The newline character. *)
Definition newline : string := String (ascii_of_nat 10) EmptyString.

(** What the workflow needs of [pathlib.Path]. *)
Class PathOps (path : Type) := {
  join : path -> string -> path;       (* [p / name] *)
  parent : path -> path;               (* [p.parent] *)
  path_str : path -> string            (* [str(p)] *)
}.

Module Desk.

(** What is asked of the keyboard, the clipboard, the clock and the file
    system, in order.  Failures of these collaborators are not modelled. *)
Inductive event :=
| Hotkey (keys : list string)              (* pyautogui.hotkey of the keys *)
| Press (key : string)                     (* pyautogui.press(key) *)
| Typewrite (text : string) (interval : Q) (* pyautogui.typewrite *)
| Sleep (seconds : Q)                      (* time.sleep *)
| Copy (text : string)                     (* pyperclip.copy(text) *)
| Mkdir (dir : string).                    (* mkdir(parents=True,
                                              exist_ok=True) *)

Record desk := {
  clipboard : string;      (* what pyperclip.paste() would return *)
  log : list event         (* events so far, oldest first *)
}.

Definition act (e : event) (d : desk) : desk :=
  {| clipboard := clipboard d; log := log d ++ [e] |}.

(** [pyperclip.copy(text)] *)
Definition copy (text : string) (d : desk) : desk :=
  {| clipboard := text; log := log d ++ [Copy text] |}.

(** [mk.type_text(text, use_clipboard)] *)
Definition type_text (text : string) (use_clipboard : bool) (d : desk) : desk :=
  if use_clipboard then
    let original := clipboard d in
    let d := copy text d in
    let d := act (Hotkey ["ctrl"; "v"]) d in
    let d := act (Sleep (1 # 10)) d in
    copy original d
  else
    act (Typewrite text (2 # 100)) d.

(** [notepad.type_content(text)] *)
Definition type_content (text : string) (d : desk) : desk :=
  let d := act (Sleep (3 # 10)) d in
  type_text text true d.

(** [notepad.save_file(filepath)] *)
Definition save_file {path : Type} `{PathOps path} (filepath : path)
    (d : desk) : desk :=
  let d := act (Mkdir (path_str (parent filepath))) d in
  let d := act (Hotkey ["ctrl"; "s"]) d in
  let d := act (Sleep (1 # 2)) d in
  let d := type_text (path_str filepath) true d in
  let d := act (Sleep (2 # 10)) d in
  let d := act (Press "enter") d in
  let d := act (Sleep (3 # 10)) d in
  let d := act (Press "left") d in
  let d := act (Press "enter") d in
  act (Sleep (2 # 10)) d.

(** [notepad.close_notepad()] *)
Definition close_notepad (d : desk) : desk :=
  let d := act (Hotkey ["alt"; "F4"]) d in
  let d := act (Sleep (3 # 10)) d in
  let d := act (Press "n") d in
  act (Sleep (2 # 10)) d.

(** [notepad.process_post(post_id, title, body, output_dir)] *)
Definition process_post {path : Type} `{PathOps path}
    (post_id title body : Api.json) (output_dir : path) (d : desk)
  : desk * path :=
  let content :=
    ("Title: " ++ py_str title ++ newline ++ newline ++ py_str body)%string in
  let d := type_content content d in
  let filepath :=
    join output_dir ("post_" ++ py_str post_id ++ ".txt")%string in
  let d := save_file filepath d in
  (d, filepath).

(** The texts put on the clipboard, in order. *)
Fixpoint copies (l : list event) : list string :=
  match l with
  | [] => []
  | Copy t :: r => t :: copies r
  | _ :: r => copies r
  end.

(** The event is the paste shortcut, [hotkey('ctrl', 'v')]. *)
Definition is_paste (e : event) : bool :=
  match e with
  | Hotkey keys =>
      if list_eq_dec string_dec keys ["ctrl"; "v"] then true else false
  | _ => false
  end.

(** The texts pasted with Ctrl+V, in order, when the clipboard holds
    [clip] at the start of the events [l]. *)
Fixpoint pasted (clip : string) (l : list event) : list string :=
  match l with
  | [] => []
  | Copy t :: r => pasted t r
  | e :: r => if is_paste e then clip :: pasted clip r else pasted clip r
  end.

(** The clipboard after the events [l], when it holds [clip] before. *)
Fixpoint clip_after (clip : string) (l : list event) : string :=
  match l with
  | [] => clip
  | Copy t :: r => clip_after t r
  | _ :: r => clip_after clip r
  end.

End Desk.

(** Paths as lists of components, for the examples. *)
#[export] Instance list_paths : PathOps (list string) := {|
  join := fun p name => p ++ [name];
  parent := fun p => removelast p;
  path_str := fun p => String.concat "/" p
|}.

(** ** The workflow ([run_automation] in [src/main.py]) *)

Module Main.

(** The three collaborators side by side: the HTTP client, the screen with
    the mouse, and the keyboard with the clipboard.  Each keeps its own
    log. *)
Record machine := {
  api : Api.state;
  screen : state;
  keys : Desk.desk
}.

(** The content [process_post] types for a post. *)
Definition content_of (post : Api.Post) : string :=
  ("Title: " ++ py_str (Api.title post) ++ newline ++ newline
   ++ py_str (Api.body post))%string.

(** The file [process_post] saves a post to. *)
Definition file_of {path : Type} `{PathOps path} (output_dir : path)
    (post : Api.Post) : path :=
  join output_dir ("post_" ++ py_str (Api.id post) ++ ".txt")%string.

(** The [for i, post in enumerate(posts, 1)] loop of [run_automation]: the
    exit code it returns with, 1 from an [except] block or 0 after the last
    post. *)
Fixpoint for_post {L : Lowercase} {K : Clock} {path : Type} `{PathOps path}
    (cfg : Config)
    (output_dir : path) (w : world) (posts : list Api.Post) (m : machine)
  : machine * Z :=
  match posts with
  | [] => (m, 0)
  | post :: rest =>
      match launch_notepad_from_desktop cfg w (screen m) with
      | (s', Ok _) =>
          let (k1, _) :=
            Desk.process_post (Api.id post) (Api.title post) (Api.body post)
                              output_dir (keys m) in
          let k2 := Desk.close_notepad k1 in
          for_post cfg output_dir w rest
                   {| api := api m; screen := s'; keys := k2 |}
      | (s', Raise _) =>
          ({| api := api m; screen := s'; keys := keys m |}, 1)
      end
  end.

(** [run_automation(num_posts)]: the exit code, or the exception that
    leaves it. *)
Definition run_automation {L : Lowercase} {K : Clock} {path : Type} `{PathOps path}
    (cfg : Config)
    (output_dir : path) (srv : Api.server) (w : world) (num_posts : Z)
    (m : machine) : machine * Api.outcome Z :=
  match Api.fetch_posts num_posts (max_retries cfg) srv (api m) with
  | (a', Api.Return posts) =>
      let (m', code) :=
        for_post cfg output_dir w posts
                 {| api := a'; screen := screen m; keys := keys m |} in
      (m', Api.Return code)
  | (a', Api.Throw (Api.APIError _)) =>
      ({| api := a'; screen := screen m; keys := keys m |}, Api.Return 1)
  | (a', Api.Throw e) =>
      ({| api := a'; screen := screen m; keys := keys m |}, Api.Throw e)
  end.

(** The screen after [n] calls of [launch_notepad_from_desktop], one after
    the other, from the screen [s]. *)
Fixpoint after_launches {L : Lowercase} {K : Clock}
    (cfg : Config) (w : world) (n : nat)
    (s : state) : state :=
  match n with
  | O => s
  | S n' => after_launches cfg w n' (fst (launch_notepad_from_desktop cfg w s))
  end.

Definition boot : machine :=
  {| api := Api.start; screen := initial_state;
     keys := {| Desk.clipboard := ""; Desk.log := [] |} |}.

End Main.

(** A desktop that always shows Notepad. *)
Definition steady_world : world :=
  {| screens := fun _ => Ok desktop_with_notepad |}.

(** A desktop that shows Notepad once and then nothing. *)
Definition vanishing_world : world :=
  {| screens := fun n =>
       match n with
       | 0%nat => Ok desktop_with_notepad
       | _ => Ok empty_desktop
       end |}.

(** * Properties *)

(** ** Strings *)

Lemma prefix_app (a b : string) :
  prefix a b = true <-> exists s, b = (a ++ s)%string.
Proof.
  revert b; induction a as [|c a IH]; intros b.
  - split; [intros _; exists b; reflexivity | intros _; destruct b; reflexivity].
  - destruct b as [|d b]; simpl.
    + split; [discriminate | intros [s Hs]; discriminate].
    + destruct (Ascii.ascii_dec c d) as [->|Hcd].
      * rewrite IH. split; intros [s Hs]; exists s.
        -- now rewrite Hs.
        -- now inversion Hs.
      * split; [discriminate | intros [s Hs]; inversion Hs; congruence].
Qed.

Lemma str_in_occurs (a b : string) :
  str_in a b = true <-> occurs_in a b.
Proof.
  unfold occurs_in. induction b as [|d b IH]; cbn [str_in].
  - rewrite prefix_app. split.
    + intros [s Hs]. exists "", s. exact Hs.
    + intros [p [s Hs]]. destruct p; simpl in Hs.
      * now exists s.
      * discriminate.
  - rewrite orb_true_iff, IH, prefix_app. split.
    + intros [[s Hs] | [p [s Hs]]].
      * exists "", s. exact Hs.
      * exists (String d p), s. simpl. now rewrite Hs.
    + intros [p [s Hs]]. destruct p as [|c p]; simpl in Hs.
      * left. now exists s.
      * right. inversion Hs. now exists p, s.
Qed.

Lemma str_in_empty (s : string) : str_in "" s = true.
Proof. apply str_in_occurs. exists "", s. reflexivity. Qed.

Lemma lower_empty {L : Lowercase} : lower "" = "".
Proof. now rewrite lower_ascii. Qed.

Lemma lower_empty_iff {L : Lowercase} (s : string) : lower s = "" <-> s = "".
Proof.
  split; [apply lower_nonempty | intros ->; apply lower_empty].
Qed.

(** ** Loops that stop at the first hit *)

Lemma first_such_split (p : TextLocation -> bool) (l : list TextLocation)
    (m : TextLocation) :
  first_such p l = Some m <->
  exists pre post, l = (pre ++ m :: post)%list /\ p m = true /\
                   forall a, In a pre -> p a = false.
Proof.
  unfold first_such. induction l as [|a l IH]; simpl.
  - split; [discriminate | intros [[|? ?] [post [H _]]]; discriminate].
  - destruct (p a) eqn:Hpa.
    + split.
      * intros [= ->]. exists [], l. repeat split; auto. intros ? [].
      * intros [pre [post [Hl [Hm Hpre]]]]. destruct pre as [|b pre].
        -- now inversion Hl.
        -- inversion Hl; subst b. rewrite (Hpre a) in Hpa by now left.
           discriminate.
    + rewrite IH. split.
      * intros [pre [post [-> [Hm Hpre]]]]. exists (a :: pre), post.
        repeat split; auto. intros b [<-|Hb]; auto.
      * intros [pre [post [Hl [Hm Hpre]]]]. destruct pre as [|b pre].
        -- inversion Hl; subst a. congruence.
        -- inversion Hl; subst. exists pre, post. repeat split; auto.
           intros c Hc. apply Hpre. now right.
Qed.

Lemma first_such_none (p : TextLocation -> bool) (l : list TextLocation) :
  first_such p l = None <-> forall a, In a l -> p a = false.
Proof.
  unfold first_such. split.
  - intros H a Ha. exact (find_none p l H a Ha).
  - induction l as [|a l IH]; simpl; intros H; [reflexivity|].
    rewrite (H a) by now left. apply IH. intros b Hb. apply H. now right.
Qed.

Lemma is_exact_iff {L : Lowercase} (target : string) (loc : TextLocation) :
  is_exact (lower target) loc = true <-> lower (text loc) = lower target.
Proof. unfold is_exact. apply String.eqb_eq. Qed.

Lemma is_partial_iff {L : Lowercase} (target : string) (loc : TextLocation) :
  is_partial (lower target) loc = true <->
  occurs_in (lower target) (lower (text loc)) \/
  occurs_in (lower (text loc)) (lower target).
Proof.
  unfold is_partial. now rewrite orb_true_iff, !str_in_occurs.
Qed.

Lemma ground_located_matched {L : Lowercase}
    (all_text : list TextLocation) (target : string)
    (m : TextLocation) :
  match_label all_text target = Some m ->
  ground_located all_text target = Ok (result_of m).
Proof.
  intros H. unfold ground_located. destruct all_text as [|a l].
  - discriminate.
  - rewrite H. reflexivity.
Qed.

Lemma ground_after_detection {L : Lowercase}
    (img : image) (all_text : list TextLocation)
    (target : string) :
  find_all_text img = Ok all_text ->
  ground img target = ground_located all_text target.
Proof. intros H. unfold ground. now rewrite H. Qed.

Lemma match_label_exact {L : Lowercase}
    (all_text : list TextLocation) (target : string)
    (m : TextLocation) :
  first_such (is_exact (lower target)) all_text = Some m ->
  match_label all_text target = Some m.
Proof. intros H. unfold match_label. now rewrite H. Qed.

Lemma match_label_partial {L : Lowercase}
    (all_text : list TextLocation) (target : string) :
  (forall a, In a all_text -> lower (text a) <> lower target) ->
  match_label all_text target =
  first_such (is_partial (lower target)) all_text.
Proof.
  intros H. unfold match_label.
  replace (first_such (is_exact (lower target)) all_text) with (@None TextLocation);
    [reflexivity|].
  symmetry. apply first_such_none. intros a Ha.
  destruct (is_exact (lower target) a) eqn:E; [|reflexivity].
  apply is_exact_iff in E. now apply H in Ha.
Qed.

(** ** The matcher *)

(** C1.  Exact match precedence: whenever some fragment's lower-cased text
    equals the lower-cased target, the matching phase returns the first
    fragment with that property, whatever substring matches stand before or
    after it, and [ground] answers from that fragment. *)
Theorem exact_match_precedence {L : Lowercase}
    (all_text : list TextLocation) (target : string) :
  (exists loc, In loc all_text /\ lower (text loc) = lower target) ->
  exists pre m post,
    all_text = (pre ++ m :: post)%list /\
    lower (text m) = lower target /\
    (forall a, In a pre -> lower (text a) <> lower target) /\
    match_label all_text target = Some m /\
    (forall img, find_all_text img = Ok all_text ->
                 ground img target = Ok (result_of m)).
Proof.
  intros [loc [Hin Hloc]].
  destruct (first_such (is_exact (lower target)) all_text) as [m|] eqn:E.
  - pose proof E as E'.
    apply first_such_split in E' as [pre [post [Hl [Hm Hpre]]]].
    exists pre, m, post. split; [exact Hl|].
    split; [now apply is_exact_iff|].
    split.
    + intros a Ha Heq. apply is_exact_iff in Heq.
      rewrite (Hpre a Ha) in Heq. discriminate.
    + split; [now apply match_label_exact|].
      intros img Himg. rewrite (ground_after_detection _ _ _ Himg).
      apply ground_located_matched. now apply match_label_exact.
  - exfalso. rewrite first_such_none in E. specialize (E loc Hin).
    apply is_exact_iff in Hloc. congruence.
Qed.

Lemma exact_match_precedence_witness :
  exists pre m post,
    [ {| text := "My Notepad++"; x := 10; y := 20; width := 100; height := 20;
         confidence := (8 # 10)%Q |};
      {| text := "NOTEPAD"; x := 100; y := 200; width := 50; height := 20;
         confidence := (9 # 10)%Q |} ] = (pre ++ m :: post)%list /\
    lower (text m) = lower "Notepad" /\
    (forall a, In a pre -> lower (text a) <> lower "Notepad") /\
    match_label
      [ {| text := "My Notepad++"; x := 10; y := 20; width := 100; height := 20;
           confidence := (8 # 10)%Q |};
        {| text := "NOTEPAD"; x := 100; y := 200; width := 50; height := 20;
           confidence := (9 # 10)%Q |} ] "Notepad" = Some m /\
    (forall img,
       find_all_text img =
         Ok [ {| text := "My Notepad++"; x := 10; y := 20; width := 100;
                 height := 20; confidence := (8 # 10)%Q |};
              {| text := "NOTEPAD"; x := 100; y := 200; width := 50;
                 height := 20; confidence := (9 # 10)%Q |} ] ->
       ground img "Notepad" = Ok (result_of m)).
Proof.
  apply (exact_match_precedence
    [ {| text := "My Notepad++"; x := 10; y := 20; width := 100; height := 20;
         confidence := (8 # 10)%Q |};
      {| text := "NOTEPAD"; x := 100; y := 200; width := 50; height := 20;
         confidence := (9 # 10)%Q |} ] "Notepad").
  exists {| text := "NOTEPAD"; x := 100; y := 200; width := 50; height := 20;
            confidence := (9 # 10)%Q |}.
  split; [simpl; auto | reflexivity].
Defined.

(** C2.  Substring match: when no fragment is an exact match, the matching
    phase returns the first fragment, in detector order, whose lower-cased
    text contains the lower-cased target or is contained in it.  Target
    "Note" matches the text "Notepad", and target "Notepad" matches the text
    "Note". *)
Theorem substring_match_first {L : Lowercase} :
  (forall (all_text : list TextLocation) (target : string),
     (forall a, In a all_text -> lower (text a) <> lower target) ->
     forall pre m post,
       all_text = (pre ++ m :: post)%list ->
       (occurs_in (lower target) (lower (text m)) \/
        occurs_in (lower (text m)) (lower target)) ->
       (forall a, In a pre ->
          ~ occurs_in (lower target) (lower (text a)) /\
          ~ occurs_in (lower (text a)) (lower target)) ->
       match_label all_text target = Some m /\
       ground_located all_text target = Ok (result_of m)) /\
  (forall l t w h c,
     match_label [ {| text := "Notepad"; x := l; y := t; width := w;
                      height := h; confidence := c |} ] "Note"
     = Some {| text := "Notepad"; x := l; y := t; width := w;
               height := h; confidence := c |}) /\
  (forall l t w h c,
     match_label [ {| text := "Note"; x := l; y := t; width := w;
                      height := h; confidence := c |} ] "Notepad"
     = Some {| text := "Note"; x := l; y := t; width := w;
               height := h; confidence := c |}).
Proof.
  split; [|split; intros; unfold match_label, first_such, is_exact, is_partial;
           cbn [find text]; rewrite !lower_ascii by reflexivity; reflexivity].
  intros all_text target Hno pre m post Hl Hm Hpre.
  assert (E : match_label all_text target = Some m).
  { rewrite (match_label_partial _ _ Hno). apply first_such_split.
    exists pre, post. split; [exact Hl|]. split.
    - now apply is_partial_iff.
    - intros a Ha. destruct (is_partial (lower target) a) eqn:P; [|reflexivity].
      apply is_partial_iff in P. destruct (Hpre a Ha) as [H1 H2]. tauto. }
  split; [exact E | now apply ground_located_matched].
Qed.

Lemma substring_match_first_witness :
  match_label
    [ {| text := "Chrome"; x := 0; y := 0; width := 60; height := 20;
         confidence := 1 |};
      {| text := "Notepad++"; x := 100; y := 200; width := 50; height := 20;
         confidence := 1 |};
      {| text := "Notes"; x := 300; y := 200; width := 50; height := 20;
         confidence := 1 |} ] "Note"
  = Some {| text := "Notepad++"; x := 100; y := 200; width := 50; height := 20;
            confidence := 1 |} /\
  ground_located
    [ {| text := "Chrome"; x := 0; y := 0; width := 60; height := 20;
         confidence := 1 |};
      {| text := "Notepad++"; x := 100; y := 200; width := 50; height := 20;
         confidence := 1 |};
      {| text := "Notes"; x := 300; y := 200; width := 50; height := 20;
         confidence := 1 |} ] "Note"
  = Ok (result_of {| text := "Notepad++"; x := 100; y := 200; width := 50;
                     height := 20; confidence := 1 |}).
Proof.
  apply (proj1 substring_match_first _ "Note") with
    (pre := [ {| text := "Chrome"; x := 0; y := 0; width := 60; height := 20;
                 confidence := 1 |} ])
    (post := [ {| text := "Notes"; x := 300; y := 200; width := 50;
                  height := 20; confidence := 1 |} ]).
  - intros a [<-|[<-|[<-|[]]]]; discriminate.
  - reflexivity.
  - left. apply str_in_occurs. reflexivity.
  - intros a [<-|[]]. split; rewrite <- str_in_occurs; discriminate.
Defined.

(** ** Failures of [ground] *)

(** C3.  Diagnostic completeness: when detection gives a non-empty list of
    fragments and none of them matches the target, exactly or by substring
    in either direction, [ground] raises a [GroundingError] whose
    [available_labels] is the list of all fragment texts in detector order,
    unchanged. *)
Theorem no_match_reports_all_labels {L : Lowercase} (img : image)
    (all_text : list TextLocation) (target : string) :
  find_all_text img = Ok all_text ->
  all_text <> [] ->
  (forall a, In a all_text ->
     lower (text a) <> lower target /\
     ~ occurs_in (lower target) (lower (text a)) /\
     ~ occurs_in (lower (text a)) (lower target)) ->
  exists e,
    ground img target = Raise (ExGrounding e) /\
    available_labels e = map text all_text /\
    message e = ("'" ++ target ++ "' not found in detected text")%string.
Proof.
  intros Himg Hne Hno.
  rewrite (ground_after_detection _ _ _ Himg).
  assert (E : match_label all_text target = None).
  { rewrite match_label_partial by (intros a Ha; apply (Hno a Ha)).
    apply first_such_none. intros a Ha.
    destruct (is_partial (lower target) a) eqn:P; [|reflexivity].
    apply is_partial_iff in P. destruct (Hno a Ha) as [_ [H1 H2]]. tauto. }
  unfold ground_located. rewrite E.
  destruct all_text as [|a l]; [congruence|].
  eexists. split; [reflexivity|]. split; reflexivity.
Qed.

Lemma no_match_reports_all_labels_witness :
  exists e,
    ground desktop_without_notepad "Notepad" = Raise (ExGrounding e) /\
    available_labels e =
      map text
        [ {| text := "Recycle Bin"; x := 10; y := 20; width := 100;
             height := 20; confidence := (8 # 10)%Q |};
          {| text := "Chrome"; x := 10; y := 120; width := 80;
             height := 20; confidence := (7 # 10)%Q |} ] /\
    message e = ("'" ++ "Notepad" ++ "' not found in detected text")%string.
Proof.
  apply (no_match_reports_all_labels desktop_without_notepad).
  - reflexivity.
  - discriminate.
  - intros a [<-|[<-|[]]]; (split; [discriminate|]);
      split; rewrite <- str_in_occurs; discriminate.
Defined.

(** C7.  Empty-scene short circuit: when detection gives no fragment at all,
    [ground] raises at once the [GroundingError] of its own guard, with the
    message "No text found in screenshot" and an empty [available_labels];
    the answer is the same for every target, and it is not the failure of
    the matching phase, whose message names the target. *)
Theorem empty_scene_short_circuit {L : Lowercase}
    (img : image) (target : string) :
  find_all_text img = Ok [] ->
  ground img target =
    Raise (ExGrounding {| message := "No text found in screenshot";
                          available_labels := [] |}) /\
  "No text found in screenshot" <>
    ("'" ++ target ++ "' not found in detected text")%string.
Proof.
  intros Himg. split.
  - rewrite (ground_after_detection _ _ _ Himg). reflexivity.
  - simpl. discriminate.
Qed.

Lemma empty_scene_short_circuit_witness :
  ground empty_desktop "Notepad" =
    Raise (ExGrounding {| message := "No text found in screenshot";
                          available_labels := [] |}) /\
  "No text found in screenshot" <>
    ("'" ++ "Notepad" ++ "' not found in detected text")%string.
Proof.
  apply (empty_scene_short_circuit empty_desktop "Notepad"). reflexivity.
Defined.

(** ** The icon anchor *)

(** C4.  Anchor offset: [icon_center] is a total function; it returns
    [x = left + width // 2] and [y = (top + height // 2) - 45], where [//]
    is Python's integer division, and for left=100, top=200, width=50,
    height=20 that is (125, 165).  Nothing confines the result to the
    screen. *)
Theorem icon_anchor_offset (t : TextLocation) :
  icon_center t = (x t + width t / 2, (y t + height t / 2) - 45) /\
  (forall txt conf,
     icon_center {| text := txt; x := 100; y := 200; width := 50;
                    height := 20; confidence := conf |} = (125, 165)) /\
  (forall txt conf,
     icon_center {| text := txt; x := 0; y := 0; width := 0;
                    height := 0; confidence := conf |} = (0, -45)).
Proof. repeat split. Qed.

(** ** The empty target *)

Lemma empty_text_iff {L : Lowercase} (a : TextLocation) :
  is_exact (lower "") a = true <-> text a = "".
Proof. rewrite is_exact_iff, lower_empty. apply lower_empty_iff. Qed.

(** C10 as stated fails: with a caption-less fragment after the first one,
    the empty target is an exact match for the later fragment, and [ground]
    answers with that fragment's anchor, not the first one's. *)
Lemma empty_target_first_fragment_counterexample :
  let img := screenshot_of [ (box 0 0 10 10, "abc", (9 # 10)%Q);
                             (box 100 200 150 220, "", (1 # 2)%Q) ] in
  exists first rest r,
    find_all_text img = Ok (first :: rest) /\
    ground img "" = Ok r /\
    coordinates r = (125, 165) /\
    icon_center first = (5, -40) /\
    coordinates r <> icon_center first.
Proof.
  do 3 eexists. split; [reflexivity|]. split; [reflexivity|].
  repeat split. discriminate.
Qed.

(** C10, amended.  On a non-empty fragment list the empty target always
    succeeds.  [ground] answers from the first fragment whose text is empty
    when there is one (an exact match), and from the first fragment of the
    list otherwise (the empty string occurs in every text). *)
Theorem empty_target_grounding {L : Lowercase} (first : TextLocation)
    (rest : list TextLocation) :
  exists m,
    match_label (first :: rest) "" = Some m /\
    (forall img, find_all_text img = Ok (first :: rest) ->
                 ground img "" = Ok (result_of m)) /\
    coordinates (result_of m) = icon_center m /\
    ((forall a, In a (first :: rest) -> text a <> "") -> m = first) /\
    (forall pre e post,
       first :: rest = (pre ++ e :: post)%list ->
       text e = "" ->
       (forall a, In a pre -> text a <> "") ->
       m = e).
Proof.
  destruct (first_such (is_exact (lower "")) (first :: rest)) as [m|] eqn:E.
  - exists m. pose proof (match_label_exact _ "" _ E) as Hm.
    split; [exact Hm|].
    split; [intros img Himg; rewrite (ground_after_detection _ _ _ Himg);
            now apply ground_located_matched|].
    split; [reflexivity|].
    apply first_such_split in E as [pre [post [Hl [Hme Hpre]]]].
    apply empty_text_iff in Hme. split.
    + intros Hall. exfalso. apply (Hall m); [|exact Hme].
      rewrite Hl. apply in_or_app. right. now left.
    + intros pre' e post' Hl' He Hpre'.
      assert (Q : first_such (is_exact (lower "")) (first :: rest) = Some e).
      { apply first_such_split. exists pre', post'. split; [exact Hl'|].
        split; [now apply empty_text_iff|].
        intros a Ha. destruct (is_exact (lower "") a) eqn:X; [|reflexivity].
        apply empty_text_iff in X. now apply Hpre' in Ha. }
      assert (Q' : first_such (is_exact (lower "")) (first :: rest) = Some m).
      { apply first_such_split. exists pre, post. split; [exact Hl|].
        split; [now apply empty_text_iff | exact Hpre]. }
      congruence.
  - exists first.
    assert (Hm : match_label (first :: rest) "" = Some first).
    { unfold match_label. rewrite E. unfold first_such, is_partial. simpl find.
      now rewrite lower_empty, str_in_empty. }
    split; [exact Hm|].
    split; [intros img Himg; rewrite (ground_after_detection _ _ _ Himg);
            now apply ground_located_matched|].
    split; [reflexivity|].
    split; [reflexivity|].
    intros pre e post Hl He _. exfalso.
    rewrite first_such_none in E.
    assert (In e (first :: rest)) as Hin
      by (rewrite Hl; apply in_or_app; right; now left).
    apply E in Hin. apply empty_text_iff in He. congruence.
Qed.

Lemma empty_target_grounding_witness :
  exists m,
    match_label
      [ {| text := "abc"; x := 0; y := 0; width := 10; height := 10;
           confidence := 1 |};
        {| text := "def"; x := 50; y := 0; width := 10; height := 10;
           confidence := 1 |} ] "" = Some m /\
    m = {| text := "abc"; x := 0; y := 0; width := 10; height := 10;
           confidence := 1 |}.
Proof.
  destruct (empty_target_grounding
    {| text := "abc"; x := 0; y := 0; width := 10; height := 10;
       confidence := 1 |}
    [ {| text := "def"; x := 50; y := 0; width := 10; height := 10;
         confidence := 1 |} ]) as [m [Hm [_ [_ [Hfirst _]]]]].
  exists m. split; [exact Hm|].
  apply Hfirst. intros a [<-|[<-|[]]]; discriminate.
Defined.

(** ** Detection *)

Lemma py_int_mono (a b : Q) : (a <= b)%Q -> py_int a <= py_int b.
Proof.
  intros Hab. unfold py_int.
  destruct (Qlt_le_dec a 0) as [Ha|Ha], (Qlt_le_dec b 0) as [Hb|Hb].
  - now apply Qceiling_resp_le.
  - pose proof (Qceiling_resp_le a (inject_Z 0) (Qlt_le_weak _ _ Ha)) as H1.
    pose proof (Qfloor_resp_le (inject_Z 0) b Hb) as H2.
    rewrite Qceiling_Z in H1. rewrite Qfloor_Z in H2. lia.
  - exfalso. apply (Qlt_irrefl 0).
    apply Qle_lt_trans with b; [|exact Hb].
    now apply Qle_trans with a.
  - now apply Qfloor_resp_le.
Qed.

Lemma running_min_spec (r : list Q) (v : Q) :
  let m := fold_left (fun m w => if Qlt_le_dec w m then w else m) r v in
  In m (v :: r) /\ (m <= v)%Q /\ forall w, In w r -> (m <= w)%Q.
Proof.
  revert v. induction r as [|a r IH]; intros v; simpl.
  - split; [now left|]. split; [apply Qle_refl | intros ? []].
  - destruct (Qlt_le_dec a v) as [Hav|Hav].
    + destruct (IH a) as [Hin [Hle Hall]]. split; [|split].
      * destruct Hin as [<-|Hin]; [right; now left | right; now right].
      * apply Qle_trans with a; [exact Hle | now apply Qlt_le_weak].
      * intros w [<-|Hw]; [exact Hle | now apply Hall].
    + destruct (IH v) as [Hin [Hle Hall]]. split; [|split].
      * destruct Hin as [<-|Hin]; [now left | right; now right].
      * exact Hle.
      * intros w [<-|Hw]; [now apply Qle_trans with v | now apply Hall].
Qed.

Lemma running_max_spec (r : list Q) (v : Q) :
  let m := fold_left (fun m w => if Qlt_le_dec m w then w else m) r v in
  In m (v :: r) /\ (v <= m)%Q /\ forall w, In w r -> (w <= m)%Q.
Proof.
  revert v. induction r as [|a r IH]; intros v; simpl.
  - split; [now left|]. split; [apply Qle_refl | intros ? []].
  - destruct (Qlt_le_dec v a) as [Hav|Hav].
    + destruct (IH a) as [Hin [Hle Hall]]. split; [|split].
      * destruct Hin as [<-|Hin]; [right; now left | right; now right].
      * apply Qle_trans with a; [now apply Qlt_le_weak | exact Hle].
      * intros w [<-|Hw]; [exact Hle | now apply Hall].
    + destruct (IH v) as [Hin [Hle Hall]]. split; [|split].
      * destruct Hin as [<-|Hin]; [now left | right; now right].
      * exact Hle.
      * intros w [<-|Hw]; [now apply Qle_trans with v | now apply Hall].
Qed.

Lemma py_min_spec (xs : list Q) :
  xs <> [] -> exists m, py_min xs = Ok m /\ is_min m xs.
Proof.
  destruct xs as [|v r]; [congruence|]. intros _.
  eexists. split; [reflexivity|].
  destruct (running_min_spec r v) as [Hin [Hle Hall]].
  split; [exact Hin|]. intros w [<-|Hw]; [exact Hle | now apply Hall].
Qed.

Lemma py_max_spec (xs : list Q) :
  xs <> [] -> exists m, py_max xs = Ok m /\ is_max m xs.
Proof.
  destruct xs as [|v r]; [congruence|]. intros _.
  eexists. split; [reflexivity|].
  destruct (running_max_spec r v) as [Hin [Hle Hall]].
  split; [exact Hin|]. intros w [<-|Hw]; [exact Hle | now apply Hall].
Qed.

Lemma min_le_max (xs : list Q) (lo hi : Q) :
  is_min lo xs -> is_max hi xs -> (lo <= hi)%Q.
Proof. intros [Hin _] [_ Hall]. now apply Hall. Qed.

Lemma locate_nonempty (bbox : list point) (txt : string) (conf : Q) :
  bbox <> [] ->
  exists x1 y1 x2 y2,
    is_min x1 (map fst bbox) /\ is_min y1 (map snd bbox) /\
    is_max x2 (map fst bbox) /\ is_max y2 (map snd bbox) /\
    locate (bbox, txt, conf) =
      Ok {| text := txt;
            x := py_int x1;
            y := py_int y1;
            width := py_int x2 - py_int x1;
            height := py_int y2 - py_int y1;
            confidence := conf |}.
Proof.
  intros Hne.
  assert (Hx : map fst bbox <> []) by (destruct bbox; [congruence | discriminate]).
  assert (Hy : map snd bbox <> []) by (destruct bbox; [congruence | discriminate]).
  destruct (py_min_spec _ Hx) as [x1 [Ex1 Hx1]].
  destruct (py_min_spec _ Hy) as [y1 [Ey1 Hy1]].
  destruct (py_max_spec _ Hx) as [x2 [Ex2 Hx2]].
  destruct (py_max_spec _ Hy) as [y2 [Ey2 Hy2]].
  exists x1, y1, x2, y2. repeat (split; [assumption|]).
  unfold locate. rewrite Ex1, Ey1, Ex2, Ey2. reflexivity.
Qed.

Lemma locate_ok_inv (r : ocr_result) (loc : TextLocation) :
  locate r = Ok loc ->
  0 <= width loc /\ 0 <= height loc /\
  text loc = snd (fst r) /\ confidence loc = snd r.
Proof.
  destruct r as [[bbox txt] conf]. intros H.
  destruct bbox as [|p bbox]; [discriminate|].
  destruct (locate_nonempty (p :: bbox) txt conf) as
    [x1 [y1 [x2 [y2 [Hx1 [Hy1 [Hx2 [Hy2 E]]]]]]]]; [discriminate|].
  rewrite E in H. injection H as <-. simpl.
  pose proof (py_int_mono _ _ (min_le_max _ _ _ Hx1 Hx2)).
  pose proof (py_int_mono _ _ (min_le_max _ _ _ Hy1 Hy2)).
  repeat split; lia.
Qed.

Lemma locate_all_Forall2 (results : list ocr_result)
    (all_text : list TextLocation) :
  locate_all results = Ok all_text ->
  Forall2 (fun r loc => locate r = Ok loc) results all_text.
Proof.
  revert all_text. induction results as [|r rest IH]; intros all_text; simpl.
  - intros [= <-]. constructor.
  - destruct (locate r) as [loc|e] eqn:E; simpl; [|discriminate].
    destruct (locate_all rest) as [locs|e] eqn:E'; simpl; [|discriminate].
    intros [= <-]. constructor; [exact E | now apply IH].
Qed.

Lemma locate_raises_only_ValueError (r : ocr_result) (e : exn) :
  locate r = Raise e -> e = ExValueError /\ fst (fst r) = [].
Proof.
  destruct r as [[bbox txt] conf]. intros H.
  destruct bbox as [|p bbox].
  - simpl in H. injection H as <-. now split.
  - destruct (locate_nonempty (p :: bbox) txt conf) as
      [x1 [y1 [x2 [y2 [_ [_ [_ [_ E]]]]]]]]; [discriminate|].
    rewrite E in H. discriminate.
Qed.

Lemma locate_all_ok (results : list ocr_result) :
  (forall r, In r results -> fst (fst r) <> []) ->
  exists all_text, locate_all results = Ok all_text.
Proof.
  induction results as [|r rest IH]; intros Hall; simpl.
  - now exists [].
  - destruct (locate r) as [loc|e] eqn:E.
    + destruct IH as [locs Hlocs]; [intros r' Hr'; apply Hall; now right|].
      rewrite Hlocs. simpl. now eexists.
    + apply locate_raises_only_ValueError in E as [_ E].
      now destruct (Hall r (or_introl eq_refl)).
Qed.

(** C9.  For every entry the recognition engine reports, detection
    normalizes the polygon to the axis-aligned box spanned by the minimum
    and the maximum of its coordinates on each axis (as integers), and the
    fragment it produces keeps the invariant: width >= 0, height >= 0,
    confidence in [0,1].  So does every fragment of [find_all_text], which
    succeeds on such entries. *)
Theorem detection_normalizes_polygons :
  (forall r : ocr_result,
     reported r ->
     exists x1 y1 x2 y2 loc,
       is_min x1 (map fst (fst (fst r))) /\
       is_min y1 (map snd (fst (fst r))) /\
       is_max x2 (map fst (fst (fst r))) /\
       is_max y2 (map snd (fst (fst r))) /\
       locate r = Ok loc /\
       x loc = py_int x1 /\ y loc = py_int y1 /\
       x loc + width loc = py_int x2 /\ y loc + height loc = py_int y2 /\
       0 <= width loc /\ 0 <= height loc /\
       (0 <= confidence loc <= 1)%Q /\
       text loc = snd (fst r)) /\
  (forall (img : image) (results : list ocr_result),
     readtext img = Ok results ->
     (forall r, In r results -> reported r) ->
     exists all_text,
       find_all_text img = Ok all_text /\
       Forall2 (fun r loc => locate r = Ok loc) results all_text /\
       forall loc, In loc all_text ->
         0 <= width loc /\ 0 <= height loc /\ (0 <= confidence loc <= 1)%Q).
Proof.
  split.
  - intros [[bbox txt] conf] [Hne Hconf]. cbn [fst snd] in *.
    destruct (locate_nonempty bbox txt conf Hne) as
      [x1 [y1 [x2 [y2 [Hx1 [Hy1 [Hx2 [Hy2 E]]]]]]]].
    exists x1, y1, x2, y2. eexists.
    repeat (split; [eassumption|]).
    pose proof (locate_ok_inv _ _ E) as [Hw [Hh _]]. simpl in Hw, Hh.
    simpl. repeat split; try lia; apply Hconf.
  - intros img results Hr Hall.
    destruct (locate_all_ok results) as [all_text Hf];
      [intros r Hin; apply (Hall r Hin)|].
    exists all_text. unfold find_all_text. rewrite Hr. simpl.
    split; [exact Hf|].
    pose proof (locate_all_Forall2 _ _ Hf) as HF. split; [exact HF|].
    clear Hr Hf. induction HF as [|r loc rs locs Hloc HF IH];
      intros l Hl; [destruct Hl|].
    destruct Hl as [<-|Hl].
    + pose proof (locate_ok_inv _ _ Hloc) as [Hw [Hh [_ Hc]]].
      rewrite Hc. destruct (Hall r (or_introl eq_refl)) as [_ Hr].
      repeat split; try assumption; apply Hr.
    + apply IH; [|exact Hl]. intros r' Hr'. apply Hall. now right.
Qed.

Lemma detection_normalizes_polygons_witness :
  exists all_text,
    find_all_text desktop_with_notepad = Ok all_text /\
    Forall2 (fun r loc => locate r = Ok loc)
      [ (box 10 20 110 40, "My Notepad++", (8 # 10)%Q);
        (box 100 200 150 220, "NOTEPAD", (9 # 10)%Q) ] all_text /\
    forall loc, In loc all_text ->
      0 <= width loc /\ 0 <= height loc /\ (0 <= confidence loc <= 1)%Q.
Proof.
  apply (proj2 detection_normalizes_polygons desktop_with_notepad _ eq_refl).
  intros r [<-|[<-|[]]]; (split; [discriminate|]);
    simpl; split; unfold Qle; simpl; lia.
Defined.

(** ** The retry loop *)

Lemma sleep_accepted {K : Clock} (seconds : Q) (st : state) :
  accepted seconds ->
  sleep seconds st =
  ({| captures := captures st; trace := trace st ++ [EvSleep seconds] |},
   Ok tt).
Proof.
  intros [H0 H1]. unfold sleep.
  destruct (Qlt_le_dec seconds 0) as [Hn|_].
  - now destruct (Qlt_not_le _ _ Hn).
  - now rewrite H1.
Qed.

Lemma accepted_short {K : Clock} (seconds : Q) :
  (0 <= seconds)%Q -> (seconds <= 86400)%Q -> accepted seconds.
Proof. intros H0 H1. split; [exact H0 | now apply takes_short]. Qed.

Lemma accepted_half {K : Clock} : accepted (1 # 2).
Proof. apply accepted_short; unfold Qle; simpl; lia. Qed.

Lemma accepted_two {K : Clock} : accepted 2.
Proof. apply accepted_short; unfold Qle; simpl; lia. Qed.

Lemma for_attempt_cons {L : Lowercase} {K : Clock} (cfg : Config) (w : world)
    (attempt : Z) (rest : list Z) (last : option GroundingError)
    (st : state) :
  for_attempt cfg w (attempt :: rest) last st =
  match round cfg w attempt st with
  | (st', Ok Launched) => (st', Ok Returned)
  | (st', Ok (Failed e)) => for_attempt cfg w rest (Some e) st'
  | (st', Raise e) => (st', Raise e)
  end.
Proof.
  simpl. unfold bind.
  destruct (round cfg w attempt st) as [st' [[|e]|e]]; reflexivity.
Qed.

(** The [except] block of a round that is not the last one. *)
Lemma except_block_sleeps {K : Clock}
    (cfg : Config) (attempt : Z) (g : GroundingError)
    (st : state) :
  attempt < 1024 ->
  attempt < max_retries cfg - 1 ->
  accepted (retry_delay cfg * inject_Z (2 ^ attempt)) ->
  except_block cfg attempt g st =
  ({| captures := captures st;
      trace := trace st ++
               [EvSleep (retry_delay cfg * inject_Z (2 ^ attempt))%Q] |},
   Ok (Failed g)).
Proof.
  intros Hp Hlt Hacc. unfold except_block, bind, lift, float_of_power.
  replace (1024 <=? attempt) with false by (symmetry; apply Z.leb_gt; lia).
  replace (attempt <? max_retries cfg - 1) with true
    by (symmetry; apply Z.ltb_lt; lia).
  now rewrite (sleep_accepted _ _ Hacc).
Qed.

(** The [except] block of the last round. *)
Lemma except_block_last {K : Clock}
    (cfg : Config) (attempt : Z) (g : GroundingError)
    (st : state) :
  attempt < 1024 ->
  max_retries cfg - 1 <= attempt ->
  except_block cfg attempt g st = (st, Ok (Failed g)).
Proof.
  intros Hp Hge. unfold except_block, bind, lift, float_of_power.
  replace (1024 <=? attempt) with false by (symmetry; apply Z.leb_gt; lia).
  replace (attempt <? max_retries cfg - 1) with false
    by (symmetry; apply Z.ltb_ge; lia).
  reflexivity.
Qed.

Lemma round_caught {L : Lowercase} {K : Clock}
    (cfg : Config) (w : world) (attempt : Z)
    (st : state) (e : GroundingError) :
  attempt_fails w (captures st) e ->
  round cfg w attempt st =
  except_block cfg attempt e
    {| captures := S (captures st);
       trace := trace st ++ [EvCapture (attempt + 1); EvOcr] |}.
Proof.
  intros [img [Hc Hg]].
  unfold round, try_except_GroundingError, try_block, bind, capture_desktop,
    run_ground_icon, bind, emit, lift.
  rewrite Hc. cbn [captures trace]. rewrite Hg, <- app_assoc. reflexivity.
Qed.

Lemma round_failed {L : Lowercase} {K : Clock}
    (cfg : Config) (w : world) (attempt : Z)
    (st : state) (e : GroundingError) :
  attempt_fails w (captures st) e ->
  attempt < 1024 ->
  attempt < max_retries cfg - 1 ->
  accepted (retry_delay cfg * inject_Z (2 ^ attempt)) ->
  round cfg w attempt st =
  ({| captures := S (captures st);
      trace := trace st ++ backoff_round cfg attempt |},
   Ok (Failed e)).
Proof.
  intros Hf Hp Hlt Hacc.
  rewrite (round_caught cfg w attempt st e Hf).
  rewrite (except_block_sleeps cfg attempt e _ Hp Hlt Hacc).
  cbn [captures trace]. now rewrite <- app_assoc.
Qed.

Lemma round_failed_last {L : Lowercase} {K : Clock} (cfg : Config) (w : world)
    (attempt : Z) (st : state) (e : GroundingError) :
  attempt_fails w (captures st) e ->
  attempt < 1024 ->
  max_retries cfg - 1 <= attempt ->
  round cfg w attempt st =
  ({| captures := S (captures st);
      trace := trace st ++ [EvCapture (attempt + 1); EvOcr] |},
   Ok (Failed e)).
Proof.
  intros Hf Hp Hge.
  rewrite (round_caught cfg w attempt st e Hf).
  now rewrite (except_block_last cfg attempt e _ Hp Hge).
Qed.

Lemma round_launched {L : Lowercase} {K : Clock}
    (cfg : Config) (w : world) (attempt : Z)
    (st : state) (img : image) (r : GroundingResult) :
  screens w (captures st) = Ok img ->
  ground_icon img "Notepad" = Ok r ->
  round cfg w attempt st =
  ({| captures := S (captures st);
      trace := trace st ++
               [EvCapture (attempt + 1); EvOcr;
                EvDoubleClick (gx r) (gy r); EvSleep 2] |},
   Ok Launched).
Proof.
  intros Hc Hg.
  unfold round, try_except_GroundingError, try_block, bind, capture_desktop,
    run_ground_icon, bind, emit, lift.
  rewrite Hc. cbn [captures trace]. rewrite Hg.
  unfold double_click, wait_for_notepad, bind, emit, ret.
  cbn [captures trace].
  change (py_min2 5 2) with 2%Q. rewrite (sleep_accepted 2 _ accepted_two).
  cbn [captures trace]. rewrite <- !app_assoc. reflexivity.
Qed.

Lemma round_capture_raises {L : Lowercase} {K : Clock}
    (cfg : Config) (w : world)
    (attempt : Z) (st : state) (e : exn) :
  screens w (captures st) = Raise e ->
  (forall g, e <> ExGrounding g) ->
  round cfg w attempt st =
  ({| captures := S (captures st);
      trace := trace st ++ [EvCapture (attempt + 1)] |},
   Raise e).
Proof.
  intros Hc Hne.
  unfold round, try_except_GroundingError, try_block, bind, capture_desktop.
  rewrite Hc. destruct e as [g| | |what]; try reflexivity.
  now destruct (Hne g).
Qed.

(** Rounds that fail and sleep, one after the other. *)
Lemma for_attempt_backoff {L : Lowercase} {K : Clock} (cfg : Config) (w : world)
    (errs : nat -> GroundingError) (k : nat) :
  forall (a : nat) (st : state) (last : option GroundingError) (rest : list Z),
    (forall i, (i < k)%nat ->
               attempt_fails w (captures st + i) (errs (a + i)%nat)) ->
    (forall i, (i < k)%nat ->
               accepted (retry_delay cfg * inject_Z (2 ^ Z.of_nat (a + i)))) ->
    Z.of_nat (a + k) <= max_retries cfg - 1 ->
    Z.of_nat (a + k) <= 1024 ->
    for_attempt cfg w (map Z.of_nat (seq a k) ++ rest) last st =
    for_attempt cfg w rest
      (match k with O => last | S k' => Some (errs (a + k')%nat) end)
      {| captures := captures st + k;
         trace := trace st ++
                  flat_map (backoff_round cfg) (map Z.of_nat (seq a k)) |}.
Proof.
  induction k as [|k IH]; intros a st last rest Hfail Hacc Hsleep Hpow.
  - simpl. rewrite Nat.add_0_r, app_nil_r. now destruct st.
  - cbn [seq map app]. rewrite for_attempt_cons.
    rewrite (round_failed cfg w (Z.of_nat a) st (errs a)).
    2:{ specialize (Hfail 0%nat). rewrite !Nat.add_0_r in Hfail.
        apply Hfail. lia. }
    2:{ lia. }
    2:{ lia. }
    2:{ specialize (Hacc 0%nat). rewrite Nat.add_0_r in Hacc.
        apply Hacc. lia. }
    rewrite IH.
    + cbn [captures trace flat_map].
      replace (S (captures st) + k)%nat with (captures st + S k)%nat by lia.
      rewrite <- !app_assoc.
      destruct k as [|k'].
      * now rewrite Nat.add_0_r.
      * now replace (S a + k')%nat with (a + S k')%nat by lia.
    + cbn [captures]. intros i Hi.
      replace (S (captures st) + i)%nat with (captures st + S i)%nat by lia.
      replace (S a + i)%nat with (a + S i)%nat by lia.
      apply Hfail. lia.
    + intros i Hi. replace (S a + i)%nat with (a + S i)%nat by lia.
      apply Hacc. lia.
    + lia.
    + lia.
Qed.

Lemma sleeps_backoff (cfg : Config) (rounds : list Z) :
  sleeps (flat_map (backoff_round cfg) rounds) =
  map (fun i => (retry_delay cfg * inject_Z (2 ^ i))%Q) rounds.
Proof.
  induction rounds as [|i rounds IH]; simpl; [reflexivity | now rewrite IH].
Qed.

Lemma capture_count_backoff (cfg : Config) (rounds : list Z) :
  capture_count (flat_map (backoff_round cfg) rounds) = List.length rounds.
Proof.
  induction rounds as [|i rounds IH]; simpl; [reflexivity | now rewrite IH].
Qed.

Lemma range_split (n : Z) (k : nat) :
  Z.of_nat k < n ->
  range n = (map Z.of_nat (seq 0 k) ++
             Z.of_nat k :: map Z.of_nat (seq (S k) (Z.to_nat n - S k)))%list.
Proof.
  intros H. unfold range.
  replace (Z.to_nat n) with (k + S (Z.to_nat n - S k))%nat at 1 by lia.
  rewrite seq_app, map_app. reflexivity.
Qed.

Lemma length_range (k : nat) : List.length (range (Z.of_nat k)) = k.
Proof. unfold range. now rewrite length_map, length_seq, Nat2Z.id. Qed.

Lemma nth_error_range (k i : nat) :
  (i < k)%nat -> nth_error (range (Z.of_nat k)) i = Some (Z.of_nat i).
Proof.
  intros H. unfold range. rewrite Nat2Z.id, nth_error_map.
  assert (E : forall a n j, (j < n)%nat -> nth_error (seq a n) j = Some (a + j)%nat).
  { intros a n; revert a. induction n as [|n IH]; intros a j Hj; [lia|].
    destruct j as [|j]; simpl.
    - now rewrite Nat.add_0_r.
    - rewrite IH by lia. f_equal. lia. }
  now rewrite E.
Qed.

(** The loop up to round [k], when the rounds before it fail with a
    [GroundingError] and their backoff sleeps are taken. *)
Lemma retry_loop_prefix {L : Lowercase} {K : Clock} (cfg : Config) (w : world)
    (st : state) (k : nat) (errs : nat -> GroundingError) :
  Z.of_nat k < max_retries cfg ->
  (k <= 1024)%nat ->
  backoffs_accepted cfg k ->
  (forall i, (i < k)%nat -> attempt_fails w (captures st + i) (errs i)) ->
  for_attempt cfg w (range (max_retries cfg)) None st =
  for_attempt cfg w
    (Z.of_nat k :: map Z.of_nat (seq (S k) (Z.to_nat (max_retries cfg) - S k)))
    (match k with O => None | S k' => Some (errs k') end)
    {| captures := captures st + k;
       trace := trace st ++ flat_map (backoff_round cfg) (range (Z.of_nat k)) |}.
Proof.
  intros Hk Hp Hacc Hfail.
  rewrite (range_split _ k Hk).
  rewrite (for_attempt_backoff cfg w errs k 0 st None);
    [|exact Hfail|exact Hacc|simpl; lia|simpl; lia].
  unfold range. rewrite Nat2Z.id. reflexivity.
Qed.

(** C6.  Backoff schedule: in a run whose rounds 0..k-1 fail with a
    [GroundingError] and whose round [k] succeeds, the loop sleeps exactly
    [k] times before the successful round, the sleep after the failed round
    of index [i] lasting [retry_delay * 2^i] seconds, in that order; the
    successful round then clicks and waits for Notepad, and the loop
    returns.  Such a run exists when the [k] delays are durations
    [time.sleep] takes and [2 ** i] converts to a float for every failed
    round. *)
Theorem backoff_schedule {L : Lowercase} {K : Clock} (cfg : Config) (w : world)
    (st : state) (k : nat) (errs : nat -> GroundingError) (img : image)
    (r : GroundingResult) :
  Z.of_nat k < max_retries cfg ->
  (k <= 1024)%nat ->
  backoffs_accepted cfg k ->
  (forall i, (i < k)%nat -> attempt_fails w (captures st + i) (errs i)) ->
  screens w (captures st + k) = Ok img ->
  ground_icon img "Notepad" = Ok r ->
  let backoff := flat_map (backoff_round cfg) (range (Z.of_nat k)) in
  exists st',
    retry_loop cfg w st = (st', Ok tt) /\
    trace st' = trace st ++ backoff ++
                [ EvCapture (Z.of_nat k + 1); EvOcr;
                  EvDoubleClick (gx r) (gy r); EvSleep 2 ] /\
    List.length (sleeps backoff) = k /\
    (forall i, (i < k)%nat ->
       nth_error (sleeps backoff) i =
       Some (retry_delay cfg * inject_Z (2 ^ Z.of_nat i))%Q) /\
    capture_count backoff = k /\
    captures st' = (captures st + k + 1)%nat.
Proof.
  intros Hk Hp Hacc Hfail Hc Hg backoff.
  eexists. split; [|split; [|split; [|split; [|split]]]].
  - unfold retry_loop, bind.
    rewrite (retry_loop_prefix cfg w st k errs Hk Hp Hacc Hfail).
    rewrite for_attempt_cons.
    rewrite (round_launched cfg w _ _ img r); [reflexivity| exact Hc | exact Hg].
  - cbn [trace]. now rewrite <- app_assoc.
  - subst backoff. now rewrite sleeps_backoff, length_map, length_range.
  - intros i Hi. subst backoff.
    now rewrite sleeps_backoff, nth_error_map, nth_error_range.
  - subst backoff. now rewrite capture_count_backoff, length_range.
  - cbn [captures]. lia.
Qed.


Lemma backoffs_of_one_second {K : Clock} (k : nat) :
  (k <= 16)%nat -> backoffs_accepted three_tries k.
Proof.
  intros Hk i Hi. unfold three_tries, retry_delay.
  assert (H0 : 0 < 2 ^ Z.of_nat i) by (apply Z.pow_pos_nonneg; lia).
  assert (H1 : 2 ^ Z.of_nat i <= 2 ^ 16) by (apply Z.pow_le_mono_r; lia).
  change (2 ^ 16) with 65536 in H1.
  apply accepted_short.
  - unfold Qle. cbn [Qnum Qden inject_Z Qmult]. lia.
  - unfold Qle. cbn [Qnum Qden inject_Z Qmult]. lia.
Qed.

Lemma backoff_schedule_witness :
  exists st',
    retry_loop three_tries settling_world initial_state = (st', Ok tt) /\
    trace st' = [ EvCapture 1; EvOcr; EvSleep 1;
                  EvCapture 2; EvOcr; EvSleep 2;
                  EvCapture 3; EvOcr; EvDoubleClick 125 165; EvSleep 2 ].
Proof.
  destruct (backoff_schedule three_tries settling_world initial_state 2
              (fun i => match i with
                        | 0%nat => no_text_error
                        | _ => not_found_error ["Recycle Bin"; "Chrome"]
                        end)
              desktop_with_notepad
              {| gx := 125; gy := 165; gconfidence := (9 # 10)%Q;
                 text_found := "NOTEPAD" |})
    as [st' [Hrun [Htrace _]]].
  - simpl. lia.
  - lia.
  - apply backoffs_of_one_second. lia.
  - intros [|[|i]] Hi.
    + exists empty_desktop. split; reflexivity.
    + exists desktop_without_notepad. split; reflexivity.
    + lia.
  - reflexivity.
  - reflexivity.
  - exists st'. split; [exact Hrun|]. rewrite Htrace. reflexivity.
Defined.


(** C8 as stated fails: [capture_desktop] does not raise a
    [GroundingError], and the loop catches nothing else.  When the first
    capture fails, two rounds remain and the next capture would show
    Notepad, yet the loop ends at once with the capture's exception: one
    capture, no sleep, no second round. *)
Lemma capture_failure_retried_counterexample :
  0 < max_retries three_tries - 1 /\
  screens unreadable_screen_world 0 = Raise (ExExternal "ScreenShotError") /\
  (exists r, (img <-- screens unreadable_screen_world 1 ;;
              ground_icon img "Notepad") = Ok r) /\
  retry_loop three_tries unreadable_screen_world initial_state =
    ({| captures := 1; trace := [EvCapture 1] |},
     Raise (ExExternal "ScreenShotError")) /\
  ~ In (EvCapture 2)
       (trace (fst (retry_loop three_tries unreadable_screen_world
                      initial_state))) /\
  sleeps (trace (fst (retry_loop three_tries unreadable_screen_world
                        initial_state))) = [].
Proof.
  split; [reflexivity|]. split; [reflexivity|].
  split; [eexists; reflexivity|]. split; [reflexivity|].
  split; [|reflexivity].
  simpl. intros [H|[]]. discriminate.
Qed.

(** C8, amended.  The loop retries a round only when the round raised a
    [GroundingError].  When the screen capture of a round raises any other
    exception, after any number of rounds that failed with a
    [GroundingError] and were followed by their backoff sleep (of a
    duration [time.sleep] takes), the loop ends there: that exception leaves
    the loop as it is, with no sleep after it and no further round, whatever
    number of rounds remain. *)
Theorem capture_error_ends_the_loop {L : Lowercase} {K : Clock} (cfg : Config)
    (w : world) (st : state) (k : nat) (errs : nat -> GroundingError)
    (e : exn) :
  Z.of_nat k < max_retries cfg ->
  (k <= 1024)%nat ->
  backoffs_accepted cfg k ->
  (forall i, (i < k)%nat -> attempt_fails w (captures st + i) (errs i)) ->
  screens w (captures st + k) = Raise e ->
  (forall g, e <> ExGrounding g) ->
  exists st',
    retry_loop cfg w st = (st', Raise e) /\
    trace st' = trace st ++
                flat_map (backoff_round cfg) (range (Z.of_nat k)) ++
                [ EvCapture (Z.of_nat k + 1) ] /\
    captures st' = (captures st + k + 1)%nat.
Proof.
  intros Hk Hp Hacc Hfail Hc Hne.
  eexists. split; [|split].
  - unfold retry_loop, bind.
    rewrite (retry_loop_prefix cfg w st k errs Hk Hp Hacc Hfail).
    rewrite for_attempt_cons.
    rewrite (round_capture_raises cfg w _ _ e); [reflexivity| exact Hc | exact Hne].
  - cbn [trace]. now rewrite <- app_assoc.
  - cbn [captures]. lia.
Qed.

Lemma capture_error_ends_the_loop_witness :
  exists st',
    retry_loop three_tries
      {| screens := fun n =>
           match n with
           | 0%nat => Ok empty_desktop
           | _ => Raise (ExExternal "ScreenShotError")
           end |} initial_state =
      (st', Raise (ExExternal "ScreenShotError")) /\
    trace st' = [ EvCapture 1; EvOcr; EvSleep 1; EvCapture 2 ].
Proof.
  destruct (capture_error_ends_the_loop three_tries
              {| screens := fun n =>
                   match n with
                   | 0%nat => Ok empty_desktop
                   | _ => Raise (ExExternal "ScreenShotError")
                   end |}
              initial_state 1 (fun _ => no_text_error)
              (ExExternal "ScreenShotError"))
    as [st' [Hrun [Htrace _]]].
  - simpl. lia.
  - lia.
  - apply backoffs_of_one_second. lia.
  - intros [|i] Hi; [|lia]. exists empty_desktop. split; reflexivity.
  - reflexivity.
  - intros g. discriminate.
  - exists st'. split; [exact Hrun|]. rewrite Htrace. reflexivity.
Defined.

(** * Further properties of the grounder *)

(** ** Detection *)

Lemma locate_all_empty_polygon (results : list ocr_result) :
  (exists r, In r results /\ fst (fst r) = []) ->
  locate_all results = Raise ExValueError.
Proof.
  induction results as [|r rest IH]; intros [r' [Hin He]]; [destruct Hin|].
  simpl. destruct (locate r) as [loc|e] eqn:E.
  - destruct Hin as [->|Hin].
    + destruct r' as [[bbox txt] conf]. simpl in He. subst bbox. discriminate.
    + rewrite IH by (exists r'; now split). reflexivity.
  - apply locate_raises_only_ValueError in E as [-> _]. reflexivity.
Qed.

(** Detection keeps the engine's entries one for one: as many fragments as
    entries, in the same order, with the same texts. *)
Theorem detection_keeps_entries (img : image) (results : list ocr_result)
    (all_text : list TextLocation) :
  readtext img = Ok results ->
  find_all_text img = Ok all_text ->
  List.length all_text = List.length results /\
  map text all_text = map (fun r => snd (fst r)) results.
Proof.
  intros Hr Hf. unfold find_all_text in Hf. rewrite Hr in Hf. simpl in Hf.
  pose proof (locate_all_Forall2 _ _ Hf) as HF. clear Hr Hf.
  induction HF as [|r loc rs locs Hloc HF [IHl IHt]]; [now split|].
  pose proof (locate_ok_inv _ _ Hloc) as [_ [_ [Ht _]]].
  simpl. now rewrite IHl, IHt, Ht.
Qed.

Lemma detection_keeps_entries_witness :
  List.length
    [ {| text := "Recycle Bin"; x := 10; y := 20; width := 100;
         height := 20; confidence := (8 # 10)%Q |};
      {| text := "Chrome"; x := 10; y := 120; width := 80;
         height := 20; confidence := (7 # 10)%Q |} ] = 2%nat /\
  map text
    [ {| text := "Recycle Bin"; x := 10; y := 20; width := 100;
         height := 20; confidence := (8 # 10)%Q |};
      {| text := "Chrome"; x := 10; y := 120; width := 80;
         height := 20; confidence := (7 # 10)%Q |} ] =
  ["Recycle Bin"; "Chrome"].
Proof.
  apply (detection_keeps_entries desktop_without_notepad _ _ eq_refl eq_refl).
Defined.

(** Detection is all or nothing.  When the engine answers, detection
    succeeds exactly when every reported polygon has at least one point; a
    single entry with an empty polygon makes [find_all_text], and with it
    [ground], raise [ValueError] for the whole screenshot, whatever the
    other entries and the target are. *)
Theorem detection_all_or_nothing {L : Lowercase}
    (img : image) (results : list ocr_result) :
  readtext img = Ok results ->
  ((forall r, In r results -> fst (fst r) <> []) ->
   exists all_text, find_all_text img = Ok all_text) /\
  ((exists r, In r results /\ fst (fst r) = []) ->
   find_all_text img = Raise ExValueError /\
   forall target, ground img target = Raise ExValueError).
Proof.
  intros Hr. unfold ground, find_all_text. rewrite Hr. simpl. split.
  - apply locate_all_ok.
  - intros H. rewrite (locate_all_empty_polygon _ H). now split.
Qed.

Lemma detection_all_or_nothing_witness :
  ground (screenshot_of [ (box 100 200 150 220, "Notepad", (9 # 10)%Q);
                          ([], "Chrome", (7 # 10)%Q) ]) "Notepad"
  = Raise ExValueError.
Proof.
  apply (proj2 (detection_all_or_nothing
                  (screenshot_of [ (box 100 200 150 220, "Notepad", (9 # 10)%Q);
                                   ([], "Chrome", (7 # 10)%Q) ])
                  _ eq_refl)).
  exists ([], "Chrome", (7 # 10)%Q). split; [right; now left | reflexivity].
Defined.

(** ** Grounding *)

Lemma exact_is_partial {L : Lowercase}
    (target_lower : string) (a : TextLocation) :
  is_exact target_lower a = true -> is_partial target_lower a = true.
Proof.
  unfold is_exact, is_partial. intros H. apply String.eqb_eq in H.
  rewrite H. apply orb_true_iff. left. apply str_in_occurs.
  exists "", "". simpl. clear H.
  induction target_lower as [|c s IH]; simpl; [reflexivity | now f_equal].
Qed.

Lemma match_label_some {L : Lowercase}
    (all_text : list TextLocation) (target : string)
    (m : TextLocation) :
  match_label all_text target = Some m ->
  In m all_text /\ is_partial (lower target) m = true.
Proof.
  unfold match_label.
  destruct (first_such (is_exact (lower target)) all_text) as [m'|] eqn:E.
  - intros [= ->]. apply first_such_split in E as [pre [post [-> [Hm _]]]].
    split; [apply in_or_app; right; now left | now apply exact_is_partial].
  - intros H. apply first_such_split in H as [pre [post [-> [Hm _]]]].
    split; [apply in_or_app; right; now left | exact Hm].
Qed.

Lemma match_label_none {L : Lowercase}
    (all_text : list TextLocation) (target : string) :
  match_label all_text target = None <->
  forall a, In a all_text -> is_partial (lower target) a = false.
Proof.
  unfold match_label. split.
  - destruct (first_such (is_exact (lower target)) all_text); [discriminate|].
    apply first_such_none.
  - intros H.
    destruct (first_such (is_exact (lower target)) all_text) as [m|] eqn:E.
    + apply first_such_split in E as [pre [post [-> [Hm _]]]].
      apply exact_is_partial in Hm.
      rewrite H in Hm by (apply in_or_app; right; now left). discriminate.
    + now apply first_such_none.
Qed.

(** Soundness of [ground]: a successful answer always comes from one of the
    detected fragments.  Its coordinates are that fragment's icon anchor,
    its confidence and text are the fragment's own, and the fragment's
    lower-cased text contains the lower-cased target or is contained in
    it. *)
Theorem ground_answers_from_a_fragment {L : Lowercase}
    (img : image) (target : string)
    (r : GroundingResult) :
  ground img target = Ok r ->
  exists all_text m,
    find_all_text img = Ok all_text /\
    In m all_text /\
    coordinates r = icon_center m /\
    gconfidence r = confidence m /\
    text_found r = text m /\
    (occurs_in (lower target) (lower (text m)) \/
     occurs_in (lower (text m)) (lower target)).
Proof.
  unfold ground. destruct (find_all_text img) as [all_text|e]; [|discriminate].
  simpl. intros H. exists all_text.
  unfold ground_located in H. destruct all_text as [|a l]; [discriminate|].
  destruct (match_label (a :: l) target) as [m|] eqn:E; [|discriminate].
  apply match_label_some in E as [Hin Hm]. exists m.
  split; [reflexivity|]. split; [exact Hin|].
  unfold icon_center, center in *. injection H as <-.
  repeat split. now apply is_partial_iff.
Qed.

Lemma ground_answers_from_a_fragment_witness :
  exists all_text m,
    find_all_text desktop_with_notepad = Ok all_text /\
    In m all_text /\
    coordinates {| gx := 125; gy := 165; gconfidence := (9 # 10)%Q;
                   text_found := "NOTEPAD" |} = icon_center m /\
    (9 # 10)%Q = confidence m /\
    "NOTEPAD" = text m /\
    (occurs_in (lower "Notepad") (lower (text m)) \/
     occurs_in (lower (text m)) (lower "Notepad")).
Proof.
  apply (ground_answers_from_a_fragment desktop_with_notepad "Notepad"
           {| gx := 125; gy := 165; gconfidence := (9 # 10)%Q;
              text_found := "NOTEPAD" |}).
  reflexivity.
Defined.

(** Once detection has succeeded, [ground] succeeds exactly when some
    fragment's lower-cased text contains the lower-cased target or is
    contained in it; otherwise it raises a [GroundingError], and never any
    other exception. *)
Theorem ground_succeeds_iff_some_fragment_matches {L : Lowercase} (img : image)
    (all_text : list TextLocation) (target : string) :
  find_all_text img = Ok all_text ->
  ((exists r, ground img target = Ok r) <->
   (exists m, In m all_text /\
              (occurs_in (lower target) (lower (text m)) \/
               occurs_in (lower (text m)) (lower target)))) /\
  (forall e, ground img target = Raise e -> exists g, e = ExGrounding g).
Proof.
  intros Himg. rewrite (ground_after_detection _ _ _ Himg). split.
  - split.
    + intros [r Hr]. unfold ground_located in Hr.
      destruct all_text as [|a l]; [discriminate|].
      destruct (match_label (a :: l) target) as [m|] eqn:E; [|discriminate].
      apply match_label_some in E as [Hin Hm]. exists m.
      split; [exact Hin | now apply is_partial_iff].
    + intros [m [Hin Hm]]. apply is_partial_iff in Hm.
      destruct (match_label all_text target) as [m'|] eqn:E.
      * exists (result_of m'). now apply ground_located_matched.
      * rewrite match_label_none in E. rewrite (E m Hin) in Hm. discriminate.
  - intros e He. unfold ground_located in He.
    destruct all_text as [|a l].
    + injection He as <-. now eexists.
    + destruct (match_label (a :: l) target).
      * destruct (icon_center t). discriminate.
      * injection He as <-. now eexists.
Qed.

Lemma ground_succeeds_iff_some_fragment_matches_witness :
  exists r, ground desktop_with_notepad "Note" = Ok r.
Proof.
  apply (proj1 (ground_succeeds_iff_some_fragment_matches
                  desktop_with_notepad _ "Note" eq_refl)).
  eexists. split; [left; reflexivity|].
  left. apply str_in_occurs. reflexivity.
Defined.

(** The grounder does not see the case of the target.  Two targets with
    the same lower-cased form, in particular two ASCII targets that differ
    only in the case of their letters, select the same fragment; [ground]
    then gives the same result for both, or fails for both with the same
    list of labels. *)
Theorem match_ignores_target_case {L : Lowercase}
    (all_text : list TextLocation) (target other : string) :
  (lower other = lower target \/
   (ascii_only target = true /\ ascii_only other = true /\
    ascii_lower other = ascii_lower target)) ->
  match_label all_text other = match_label all_text target /\
  (forall img r, find_all_text img = Ok all_text ->
     (ground img other = Ok r <-> ground img target = Ok r)) /\
  (forall img g, find_all_text img = Ok all_text ->
     ground img target = Raise (ExGrounding g) ->
     exists g', ground img other = Raise (ExGrounding g') /\
                available_labels g' = available_labels g).
Proof.
  intros Hcase.
  assert (Hl : lower other = lower target).
  { destruct Hcase as [H|[Ht [Ho H]]]; [exact H|].
    now rewrite (lower_ascii _ Ht), (lower_ascii _ Ho). }
  assert (Hm : match_label all_text other = match_label all_text target)
    by (unfold match_label; now rewrite Hl).
  split; [exact Hm|]. split.
  - intros img r Himg. rewrite !(ground_after_detection _ _ _ Himg).
    unfold ground_located. rewrite Hm.
    destruct all_text as [|a l]; [split; discriminate|].
    destruct (match_label (a :: l) target); [reflexivity | split; discriminate].
  - intros img g Himg. rewrite !(ground_after_detection _ _ _ Himg).
    unfold ground_located. rewrite Hm.
    destruct all_text as [|a l].
    + intros [= <-]. eexists. split; reflexivity.
    + destruct (match_label (a :: l) target) as [m|].
      * destruct (icon_center m). discriminate.
      * intros [= <-]. eexists. split; reflexivity.
Qed.

Lemma match_ignores_target_case_witness :
  match_label
    [ {| text := "My Notepad++"; x := 10; y := 20; width := 100; height := 20;
         confidence := (8 # 10)%Q |};
      {| text := "NOTEPAD"; x := 100; y := 200; width := 50; height := 20;
         confidence := (9 # 10)%Q |} ] "nOtEpAd" =
  match_label
    [ {| text := "My Notepad++"; x := 10; y := 20; width := 100; height := 20;
         confidence := (8 # 10)%Q |};
      {| text := "NOTEPAD"; x := 100; y := 200; width := 50; height := 20;
         confidence := (9 # 10)%Q |} ] "Notepad".
Proof.
  apply (match_ignores_target_case _ "Notepad" "nOtEpAd").
  right. repeat split.
Defined.

(** ** Geometry *)

Lemma detected_dimensions (img : image) (all_text : list TextLocation) :
  find_all_text img = Ok all_text ->
  forall t, In t all_text -> 0 <= width t /\ 0 <= height t.
Proof.
  unfold find_all_text. destruct (readtext img) as [results|e]; [|discriminate].
  simpl. intros Hf. pose proof (locate_all_Forall2 _ _ Hf) as HF. clear Hf.
  induction HF as [|r loc rs locs Hloc HF IH]; intros t Ht; [destruct Ht|].
  destruct Ht as [<-|Ht]; [|now apply IH].
  pose proof (locate_ok_inv _ _ Hloc) as [Hw [Hh _]]. now split.
Qed.

(** The centre of a box with non-negative width and height lies inside the
    box; this holds for every fragment that detection produces. *)
Theorem center_inside_box :
  (forall t : TextLocation,
     0 <= width t -> 0 <= height t ->
     x t <= fst (center t) <= x t + width t /\
     y t <= snd (center t) <= y t + height t) /\
  (forall (img : image) (all_text : list TextLocation),
     find_all_text img = Ok all_text ->
     forall t, In t all_text ->
       x t <= fst (center t) <= x t + width t /\
       y t <= snd (center t) <= y t + height t).
Proof.
  assert (H : forall t : TextLocation,
     0 <= width t -> 0 <= height t ->
     x t <= fst (center t) <= x t + width t /\
     y t <= snd (center t) <= y t + height t).
  { intros t Hw Hh. unfold center. simpl.
    pose proof (Z.div_pos (width t) 2 Hw ltac:(lia)).
    pose proof (Z.div_pos (height t) 2 Hh ltac:(lia)).
    pose proof (Z.div_le_upper_bound (width t) 2 (width t) ltac:(lia) ltac:(lia)).
    pose proof (Z.div_le_upper_bound (height t) 2 (height t) ltac:(lia) ltac:(lia)).
    lia. }
  split; [exact H|].
  intros img all_text Himg t Ht.
  destruct (detected_dimensions img all_text Himg t Ht). now apply H.
Qed.

Lemma center_inside_box_witness :
  100 <= fst (center {| text := "NOTEPAD"; x := 100; y := 200; width := 50;
                        height := 20; confidence := (9 # 10)%Q |}) <= 100 + 50 /\
  200 <= snd (center {| text := "NOTEPAD"; x := 100; y := 200; width := 50;
                        height := 20; confidence := (9 # 10)%Q |}) <= 200 + 20.
Proof.
  apply (proj2 center_inside_box desktop_with_notepad _ eq_refl
           {| text := "NOTEPAD"; x := 100; y := 200; width := 50;
              height := 20; confidence := (9 # 10)%Q |}).
  right. left. reflexivity.
Defined.

(** The icon anchor has the x of the centre of the text box.  It lies
    strictly above the top edge of the box exactly when the box is less than
    90 pixels high, and it leaves the screen through the top ([y < 0])
    exactly when the centre of the text is less than 45 pixels from the
    top. *)
Theorem icon_anchor_position (t : TextLocation) :
  fst (icon_center t) = fst (center t) /\
  (snd (icon_center t) < y t <-> height t < 90) /\
  (snd (icon_center t) < 0 <-> snd (center t) < 45).
Proof.
  unfold icon_center, center. simpl. split; [reflexivity|]. split.
  - pose proof (Z.div_lt_upper_bound (height t) 2 45 ltac:(lia)).
    pose proof (Z.div_le_lower_bound (height t) 2 45 ltac:(lia)).
    split; intros; [|lia].
    destruct (Z_lt_le_dec (height t) 90); [assumption|]. lia.
  - lia.
Qed.

(** * Further properties of the retry loop *)

Lemma capture_count_app (a b : list event) :
  capture_count (a ++ b) = (capture_count a + capture_count b)%nat.
Proof.
  induction a as [|e a IH]; simpl; [reflexivity|].
  destruct e; simpl; now rewrite IH.
Qed.

Lemma click_count_app (a b : list event) :
  click_count (a ++ b) = (click_count a + click_count b)%nat.
Proof.
  induction a as [|e a IH]; simpl; [reflexivity|].
  destruct e; simpl; now rewrite IH.
Qed.

Lemma sleeps_app (a b : list event) :
  sleeps (a ++ b) = sleeps a ++ sleeps b.
Proof.
  induction a as [|e a IH]; simpl; [reflexivity|].
  destruct e; simpl; now rewrite IH.
Qed.

Lemma click_count_backoff (cfg : Config) (rounds : list Z) :
  click_count (flat_map (backoff_round cfg) rounds) = 0%nat.
Proof.
  induction rounds as [|i rounds IH]; simpl; [reflexivity | exact IH].
Qed.

Lemma round_ground_raises {L : Lowercase} {K : Clock} (cfg : Config) (w : world)
    (attempt : Z) (st : state) (img : image) (e : exn) :
  screens w (captures st) = Ok img ->
  ground_icon img "Notepad" = Raise e ->
  (forall g, e <> ExGrounding g) ->
  round cfg w attempt st =
  ({| captures := S (captures st);
      trace := trace st ++ [EvCapture (attempt + 1); EvOcr] |},
   Raise e).
Proof.
  intros Hc Hg Hne.
  unfold round, try_except_GroundingError, try_block, bind, capture_desktop,
    run_ground_icon, bind, emit, lift.
  rewrite Hc. cbn [captures trace]. rewrite Hg, <- app_assoc.
  destruct e as [g| | |what]; try reflexivity. now destruct (Hne g).
Qed.

(** What the [except] block can do: it adds at most one sleep, and what it
    raises is not a [GroundingError]. *)
Lemma except_block_shape {K : Clock}
    (cfg : Config) (attempt : Z) (g : GroundingError)
    (st : state) :
  exists evs,
    fst (except_block cfg attempt g st) =
      {| captures := captures st; trace := trace st ++ evs |} /\
    capture_count evs = 0%nat /\
    click_count evs = 0%nat /\
    match snd (except_block cfg attempt g st) with
    | Ok r => r = Failed g
    | Raise e => forall g', e <> ExGrounding g'
    end.
Proof.
  unfold except_block, bind, lift, float_of_power.
  destruct (1024 <=? attempt).
  - exists []. rewrite app_nil_r. cbn [fst snd].
    split; [now destruct st|]. repeat split. discriminate.
  - destruct (attempt <? max_retries cfg - 1).
    + unfold sleep.
      destruct (Qlt_le_dec (retry_delay cfg * inject_Z (2 ^ attempt)) 0).
      * exists []. rewrite app_nil_r. cbn [raise fst snd].
        split; [now destruct st|]. repeat split. discriminate.
      * destruct (takes (retry_delay cfg * inject_Z (2 ^ attempt))).
        -- eexists. cbn [emit ret fst snd]. split; [reflexivity|].
           now repeat split.
        -- exists []. rewrite app_nil_r. cbn [raise fst snd].
           split; [now destruct st|]. repeat split. discriminate.
    + exists []. rewrite app_nil_r. cbn [ret fst snd].
      split; [now destruct st|]. now repeat split.
Qed.

(** What one round can do, whatever the world answers. *)
Lemma round_shape {L : Lowercase} {K : Clock}
    (cfg : Config) (w : world) (attempt : Z)
    (st : state) :
  exists evs,
    fst (round cfg w attempt st) =
      {| captures := S (captures st); trace := trace st ++ evs |} /\
    capture_count evs = 1%nat /\
    match snd (round cfg w attempt st) with
    | Ok Launched =>
        exists pre cx cy,
          evs = pre ++ [EvDoubleClick cx cy; EvSleep 2] /\
          click_count pre = 0%nat
    | Ok (Failed _) => click_count evs = 0%nat
    | Raise e => click_count evs = 0%nat /\ forall g, e <> ExGrounding g
    end.
Proof.
  assert (Hexc : forall g st1 pre,
            capture_count pre = 1%nat -> click_count pre = 0%nat ->
            st1 = {| captures := S (captures st); trace := trace st ++ pre |} ->
            exists evs,
              fst (except_block cfg attempt g st1) =
                {| captures := S (captures st); trace := trace st ++ evs |} /\
              capture_count evs = 1%nat /\
              match snd (except_block cfg attempt g st1) with
              | Ok Launched =>
                  exists pre cx cy,
                    evs = pre ++ [EvDoubleClick cx cy; EvSleep 2] /\
                    click_count pre = 0%nat
              | Ok (Failed _) => click_count evs = 0%nat
              | Raise e => click_count evs = 0%nat /\
                           forall g, e <> ExGrounding g
              end).
  { intros g st1 pre Hcap Hclick ->.
    destruct (except_block_shape cfg attempt g
                {| captures := S (captures st); trace := trace st ++ pre |})
      as [evs [Hst [Hc [Hk Hr]]]].
    exists (pre ++ evs). rewrite Hst. cbn [captures trace].
    rewrite <- app_assoc, capture_count_app, click_count_app, Hcap, Hclick,
      Hc, Hk.
    split; [reflexivity|]. split; [reflexivity|].
    destruct (snd (except_block cfg attempt g _)) as [r|e].
    - subst r. reflexivity.
    - now split. }
  destruct (screens w (captures st)) as [img|e] eqn:Hc.
  - destruct (ground_icon img "Notepad") as [r|e] eqn:Hg.
    + rewrite (round_launched cfg w attempt st img r Hc Hg). cbn [fst snd].
      eexists. split; [reflexivity|]. split; [reflexivity|].
      exists [EvCapture (attempt + 1); EvOcr], (gx r), (gy r). now split.
    + destruct e as [g| | |what].
      * rewrite (round_caught cfg w attempt st g)
          by (exists img; now split).
        now apply (Hexc g _ [EvCapture (attempt + 1); EvOcr]).
      * rewrite (round_ground_raises cfg w attempt st img _ Hc Hg)
          by discriminate.
        cbn [fst snd]. eexists. split; [reflexivity|]. repeat split.
        discriminate.
      * rewrite (round_ground_raises cfg w attempt st img _ Hc Hg)
          by discriminate.
        cbn [fst snd]. eexists. split; [reflexivity|]. repeat split.
        discriminate.
      * rewrite (round_ground_raises cfg w attempt st img _ Hc Hg)
          by discriminate.
        cbn [fst snd]. eexists. split; [reflexivity|]. repeat split.
        discriminate.
  - destruct e as [g| | |what].
    + assert (E : round cfg w attempt st =
                  except_block cfg attempt g
                    {| captures := S (captures st);
                       trace := trace st ++ [EvCapture (attempt + 1)] |}).
      { unfold round, try_except_GroundingError, try_block, bind,
          capture_desktop. now rewrite Hc. }
      rewrite E. now apply (Hexc g _ [EvCapture (attempt + 1)]).
    + rewrite (round_capture_raises cfg w attempt st _ Hc) by discriminate.
      cbn [fst snd]. eexists. split; [reflexivity|]. repeat split.
      discriminate.
    + rewrite (round_capture_raises cfg w attempt st _ Hc) by discriminate.
      cbn [fst snd]. eexists. split; [reflexivity|]. repeat split.
      discriminate.
    + rewrite (round_capture_raises cfg w attempt st _ Hc) by discriminate.
      cbn [fst snd]. eexists. split; [reflexivity|]. repeat split.
      discriminate.
Qed.

(** What the [for] loop can do, whatever the world answers. *)
Lemma for_attempt_shape {L : Lowercase} {K : Clock}
    (cfg : Config) (w : world) (rounds : list Z) :
  forall (last : option GroundingError) (st : state),
  exists evs,
    fst (for_attempt cfg w rounds last st) =
      {| captures := captures st + capture_count evs;
         trace := trace st ++ evs |} /\
    (capture_count evs <= List.length rounds)%nat /\
    match snd (for_attempt cfg w rounds last st) with
    | Ok Returned =>
        exists pre cx cy,
          evs = pre ++ [EvDoubleClick cx cy; EvSleep 2] /\
          click_count pre = 0%nat
    | Ok (Exhausted _) =>
        click_count evs = 0%nat /\ capture_count evs = List.length rounds
    | Raise e => click_count evs = 0%nat /\ forall g, e <> ExGrounding g
    end.
Proof.
  induction rounds as [|attempt rest IH]; intros last st.
  - exists []. simpl. rewrite Nat.add_0_r, app_nil_r.
    split; [now destruct st|]. split; [lia | now split].
  - rewrite for_attempt_cons.
    destruct (round_shape cfg w attempt st) as [evs [Hst [Hcap Hr]]].
    destruct (round cfg w attempt st) as [st1 [[|e]|e]];
      cbn [fst snd] in Hst, Hr; subst st1.
    + exists evs. cbn [fst snd]. rewrite Hcap, Nat.add_1_r.
      split; [reflexivity|]. split; [simpl; lia | exact Hr].
    + destruct (IH (Some e)
                  {| captures := S (captures st); trace := trace st ++ evs |})
        as [evs' [Hst' [Hcap' Hr']]].
      exists (evs ++ evs'). rewrite Hst'. cbn [captures trace].
      rewrite capture_count_app, Hcap, <- app_assoc.
      split; [f_equal; lia|]. split; [simpl; lia|].
      destruct (snd (for_attempt cfg w rest (Some e) _)) as [[|le]|e'].
      * destruct Hr' as [pre [cx [cy [-> Hpre]]]].
        exists (evs ++ pre), cx, cy. rewrite app_assoc. split; [reflexivity|].
        rewrite click_count_app. lia.
      * destruct Hr' as [Hc Hn]. rewrite click_count_app. simpl. split; lia.
      * destruct Hr' as [Hc Hn]. rewrite click_count_app. split; [lia|exact Hn].
    + exists evs. cbn [fst snd]. rewrite Hcap, Nat.add_1_r.
      split; [reflexivity|]. split; [simpl; lia | exact Hr].
Qed.

Lemma launch_unfold {L : Lowercase} {K : Clock}
    (cfg : Config) (w : world) (st : state) :
  launch_notepad_from_desktop cfg w st =
  retry_loop cfg w
    {| captures := captures st;
       trace := trace st ++ [EvShowDesktop; EvSleep (1 # 2); EvSleep (1 # 2)] |}.
Proof.
  unfold launch_notepad_from_desktop, show_desktop, bind, emit.
  rewrite (sleep_accepted (1 # 2) _ accepted_half).
  rewrite (sleep_accepted (1 # 2) _ accepted_half).
  cbn [captures trace]. now rewrite <- !app_assoc.
Qed.

Lemma retry_loop_shape {L : Lowercase} {K : Clock}
    (cfg : Config) (w : world) (st : state) :
  exists evs,
    fst (retry_loop cfg w st) =
      {| captures := captures st + capture_count evs;
         trace := trace st ++ evs |} /\
    Z.of_nat (capture_count evs) <= Z.max 0 (max_retries cfg) /\
    match snd (retry_loop cfg w st) with
    | Ok _ =>
        exists pre cx cy,
          evs = pre ++ [EvDoubleClick cx cy; EvSleep 2] /\
          click_count pre = 0%nat
    | Raise e =>
        click_count evs = 0%nat /\
        forall g, e = ExGrounding g ->
                  Z.of_nat (capture_count evs) = Z.max 0 (max_retries cfg)
    end.
Proof.
  destruct (for_attempt_shape cfg w (range (max_retries cfg)) None st)
    as [evs [Hst [Hcap Hr]]].
  assert (Hlen : List.length (range (max_retries cfg)) =
                 Z.to_nat (max_retries cfg))
    by (unfold range; now rewrite length_map, length_seq).
  rewrite Hlen in *.
  exists evs. unfold retry_loop, bind.
  destruct (for_attempt cfg w (range (max_retries cfg)) None st)
    as [st1 [[|le]|e]]; cbn [fst snd] in Hst, Hr; subst st1.
  - cbn [ret fst snd]. split; [reflexivity|]. split; [lia | exact Hr].
  - destruct Hr as [Hc Hn].
    destruct le as [g|]; cbn [raise fst snd];
      (split; [reflexivity|]); (split; [lia|]); (split; [exact Hc|]);
      intros; lia.
  - destruct Hr as [Hc Hn]. cbn [fst snd].
    split; [reflexivity|]. split; [lia|]. split; [exact Hc|].
    intros g ->. now destruct (Hn g).
Qed.

(** Whatever the screen and the OCR engine answer,
    [launch_notepad_from_desktop] first shows the desktop and lets it settle
    (two half-second sleeps), then makes at most [max_retries] screen
    captures (none when [max_retries] is zero or negative) and at most one
    double click. *)
Theorem launch_capture_budget {L : Lowercase} {K : Clock}
    (cfg : Config) (w : world) (st : state) :
  exists evs,
    fst (launch_notepad_from_desktop cfg w st) =
      {| captures := captures st + capture_count evs;
         trace := trace st ++
                  [EvShowDesktop; EvSleep (1 # 2); EvSleep (1 # 2)] ++ evs |} /\
    Z.of_nat (capture_count evs) <= Z.max 0 (max_retries cfg) /\
    (click_count evs <= 1)%nat.
Proof.
  rewrite launch_unfold.
  destruct (retry_loop_shape cfg w
              {| captures := captures st;
                 trace := trace st ++
                          [EvShowDesktop; EvSleep (1 # 2); EvSleep (1 # 2)] |})
    as [evs [Hst [Hcap Hr]]].
  exists evs. rewrite Hst. cbn [captures trace]. rewrite <- app_assoc.
  split; [reflexivity|]. split; [exact Hcap|].
  destruct (snd (retry_loop cfg w _)).
  - destruct Hr as [pre [cx [cy [-> Hpre]]]]. rewrite click_count_app.
    simpl. lia.
  - destruct Hr as [-> _]. lia.
Qed.

(** [launch_notepad_from_desktop] returns normally exactly when it has
    double-clicked: a normal return ends with one double click followed by
    the 2-second wait for Notepad, and a run that raises has not clicked at
    all. *)
Theorem launch_clicks_iff_it_returns {L : Lowercase} {K : Clock}
    (cfg : Config) (w : world) (st : state) :
  exists evs,
    trace (fst (launch_notepad_from_desktop cfg w st)) =
      trace st ++ [EvShowDesktop; EvSleep (1 # 2); EvSleep (1 # 2)] ++ evs /\
    (snd (launch_notepad_from_desktop cfg w st) = Ok tt ->
     exists pre cx cy,
       evs = pre ++ [EvDoubleClick cx cy; EvSleep 2] /\
       click_count pre = 0%nat) /\
    (forall e, snd (launch_notepad_from_desktop cfg w st) = Raise e ->
               click_count evs = 0%nat).
Proof.
  rewrite launch_unfold.
  destruct (retry_loop_shape cfg w
              {| captures := captures st;
                 trace := trace st ++
                          [EvShowDesktop; EvSleep (1 # 2); EvSleep (1 # 2)] |})
    as [evs [Hst [Hcap Hr]]].
  exists evs. rewrite Hst. cbn [captures trace]. rewrite <- app_assoc.
  split; [reflexivity|].
  destruct (snd (retry_loop cfg w _)).
  - split; [intros _; exact Hr | discriminate].
  - split; [discriminate | intros _ _; apply Hr].
Qed.

Lemma launch_clicks_iff_it_returns_witness :
  exists evs,
    trace (fst (launch_notepad_from_desktop three_tries settling_world
                  initial_state)) =
      [EvShowDesktop; EvSleep (1 # 2); EvSleep (1 # 2)] ++ evs /\
    exists pre cx cy,
      evs = pre ++ [EvDoubleClick cx cy; EvSleep 2] /\
      click_count pre = 0%nat.
Proof.
  destruct (launch_clicks_iff_it_returns three_tries settling_world
              initial_state) as [evs [Htrace [Hok _]]].
  exists evs. split; [exact Htrace|]. apply Hok. reflexivity.
Defined.

(** A [GroundingError] leaves [launch_notepad_from_desktop] only when the
    whole budget is spent: exactly [max_retries] captures were made (none
    for a zero or negative [max_retries]) and nothing was clicked. *)
Theorem grounding_error_after_all_attempts {L : Lowercase} {K : Clock}
    (cfg : Config) (w : world)
    (st : state) (g : GroundingError) :
  snd (launch_notepad_from_desktop cfg w st) = Raise (ExGrounding g) ->
  exists evs,
    trace (fst (launch_notepad_from_desktop cfg w st)) =
      trace st ++ [EvShowDesktop; EvSleep (1 # 2); EvSleep (1 # 2)] ++ evs /\
    Z.of_nat (capture_count evs) = Z.max 0 (max_retries cfg) /\
    click_count evs = 0%nat.
Proof.
  rewrite launch_unfold.
  destruct (retry_loop_shape cfg w
              {| captures := captures st;
                 trace := trace st ++
                          [EvShowDesktop; EvSleep (1 # 2); EvSleep (1 # 2)] |})
    as [evs [Hst [Hcap Hr]]].
  intros Hsnd. rewrite Hsnd in Hr. destruct Hr as [Hc Hn].
  exists evs. rewrite Hst. cbn [captures trace]. rewrite <- app_assoc.
  split; [reflexivity|]. split; [now apply (Hn g) | exact Hc].
Qed.

Lemma grounding_error_after_all_attempts_witness :
  exists evs,
    trace (fst (launch_notepad_from_desktop three_tries barren_world
                  initial_state)) =
      [EvShowDesktop; EvSleep (1 # 2); EvSleep (1 # 2)] ++ evs /\
    Z.of_nat (capture_count evs) = 3 /\
    click_count evs = 0%nat.
Proof.
  apply (grounding_error_after_all_attempts three_tries barren_world
           initial_state (not_found_error ["Chrome"])).
  reflexivity.
Defined.

(** With a zero or negative [max_retries] the loop body never runs:
    [launch_notepad_from_desktop] shows the desktop, captures nothing, and
    raises its own [GroundingError] "Failed to launch Notepad after all
    retries" with no labels. *)
Theorem no_attempt_without_retries {L : Lowercase} {K : Clock}
    (cfg : Config) (w : world) (st : state) :
  max_retries cfg <= 0 ->
  launch_notepad_from_desktop cfg w st =
  ({| captures := captures st;
      trace := trace st ++ [EvShowDesktop; EvSleep (1 # 2); EvSleep (1 # 2)] |},
   Raise (ExGrounding
            {| message := "Failed to launch Notepad after all retries";
               available_labels := [] |})).
Proof.
  intros H. rewrite launch_unfold. unfold retry_loop, bind, range.
  replace (Z.to_nat (max_retries cfg)) with 0%nat by lia. reflexivity.
Qed.

Lemma no_attempt_without_retries_witness :
  launch_notepad_from_desktop {| max_retries := 0; retry_delay := 1 |}
    settling_world initial_state =
  ({| captures := 0;
      trace := [EvShowDesktop; EvSleep (1 # 2); EvSleep (1 # 2)] |},
   Raise (ExGrounding
            {| message := "Failed to launch Notepad after all retries";
               available_labels := [] |})).
Proof.
  apply (no_attempt_without_retries {| max_retries := 0; retry_delay := 1 |}
           settling_world initial_state).
  simpl. lia.
Defined.

(** Exhaustion for any budget: when all [n + 1 = max_retries] rounds fail
    with a [GroundingError], the [n] backoff delays are durations
    [time.sleep] takes and [2 ** n] still converts to a float, the loop
    captures [n + 1] times, sleeps [n] times, after every round but the
    last, never clicks, and raises the error of the last round. *)
Theorem exhaustion_after_all_attempts {L : Lowercase} {K : Clock} (cfg : Config)
    (w : world) (st : state) (n : nat) (errs : nat -> GroundingError) :
  max_retries cfg = Z.of_nat (S n) ->
  (n < 1024)%nat ->
  backoffs_accepted cfg n ->
  (forall i, (i <= n)%nat -> attempt_fails w (captures st + i) (errs i)) ->
  exists st' evs,
    retry_loop cfg w st = (st', Raise (ExGrounding (errs n))) /\
    trace st' = trace st ++ evs /\
    evs = flat_map (backoff_round cfg) (range (Z.of_nat n)) ++
          [EvCapture (Z.of_nat n + 1); EvOcr] /\
    capture_count evs = S n /\
    sleeps evs = map (fun i => (retry_delay cfg * inject_Z (2 ^ i))%Q)
                     (range (Z.of_nat n)) /\
    click_count evs = 0%nat.
Proof.
  intros Hmax Hp Hacc Hfail.
  eexists. eexists. split; [|split; [|split; [reflexivity|]]].
  - unfold retry_loop, bind.
    rewrite (retry_loop_prefix cfg w st n errs);
      [| lia | lia | exact Hacc | intros i Hi; apply Hfail; lia].
    rewrite for_attempt_cons.
    erewrite round_failed_last;
      [| cbn [captures]; apply Hfail; lia | lia | lia].
    replace (Z.to_nat (max_retries cfg) - S n)%nat with 0%nat by lia.
    reflexivity.
  - cbn [trace]. rewrite <- app_assoc. reflexivity.
  - rewrite capture_count_app, sleeps_app, click_count_app.
    rewrite capture_count_backoff, sleeps_backoff, click_count_backoff,
      length_range.
    simpl. rewrite app_nil_r. repeat split. lia.
Qed.

Lemma exhaustion_after_all_attempts_witness :
  exists st' evs,
    retry_loop {| max_retries := 2; retry_delay := 1 |} barren_world
      initial_state =
      (st', Raise (ExGrounding
                     (not_found_error ["Recycle Bin"; "Chrome"]))) /\
    trace st' = evs /\
    evs = [EvCapture 1; EvOcr; EvSleep 1; EvCapture 2; EvOcr].
Proof.
  destruct (exhaustion_after_all_attempts
              {| max_retries := 2; retry_delay := 1 |} barren_world
              initial_state 1
              (fun i => match i with
                        | 0%nat => no_text_error
                        | _ => not_found_error ["Recycle Bin"; "Chrome"]
                        end))
    as [st' [evs [Hrun [Htrace [Hevs _]]]]].
  - reflexivity.
  - lia.
  - apply backoffs_of_one_second. lia.
  - intros [|[|i]] Hi.
    + exists empty_desktop. split; reflexivity.
    + exists desktop_without_notepad. split; reflexivity.
    + lia.
  - exists st', evs. split; [exact Hrun|]. split; [exact Htrace|].
    rewrite Hevs. reflexivity.
Defined.

(** An exception of detection (the OCR engine failing, or [ValueError] on an
    empty polygon) is not a [GroundingError]: [ground] lets it through, and
    the loop, which catches [GroundingError] only, ends with it at once,
    with no sleep after it and no further round.  The rounds before it
    failed with a [GroundingError] and slept their backoff, of a duration
    [time.sleep] takes. *)
Theorem detection_error_ends_the_loop {L : Lowercase} {K : Clock} (cfg : Config)
    (w : world) (st : state) (k : nat) (errs : nat -> GroundingError)
    (img : image) (e : exn) :
  Z.of_nat k < max_retries cfg ->
  (k <= 1024)%nat ->
  backoffs_accepted cfg k ->
  (forall i, (i < k)%nat -> attempt_fails w (captures st + i) (errs i)) ->
  screens w (captures st + k) = Ok img ->
  find_all_text img = Raise e ->
  (forall g, e <> ExGrounding g) ->
  (forall target, ground img target = Raise e) /\
  exists st',
    retry_loop cfg w st = (st', Raise e) /\
    trace st' = trace st ++
                flat_map (backoff_round cfg) (range (Z.of_nat k)) ++
                [ EvCapture (Z.of_nat k + 1); EvOcr ] /\
    captures st' = (captures st + k + 1)%nat.
Proof.
  intros Hk Hp Hacc Hfail Hc Hf Hne.
  assert (Hg : forall target, ground img target = Raise e)
    by (intros target; unfold ground; now rewrite Hf).
  split; [exact Hg|].
  eexists. split; [|split].
  - unfold retry_loop, bind.
    rewrite (retry_loop_prefix cfg w st k errs Hk Hp Hacc Hfail).
    rewrite for_attempt_cons.
    rewrite (round_ground_raises cfg w _ _ img e);
      [reflexivity | exact Hc | apply Hg | exact Hne].
  - cbn [trace]. now rewrite <- app_assoc.
  - cbn [captures]. lia.
Qed.

Lemma detection_error_ends_the_loop_witness :
  exists st',
    retry_loop three_tries
      {| screens := fun n =>
           match n with
           | 0%nat => Ok empty_desktop
           | _ => Ok {| readtext := Raise (ExExternal "RuntimeError") |}
           end |} initial_state =
      (st', Raise (ExExternal "RuntimeError")) /\
    trace st' = [EvCapture 1; EvOcr; EvSleep 1; EvCapture 2; EvOcr].
Proof.
  destruct (detection_error_ends_the_loop three_tries
              {| screens := fun n =>
                   match n with
                   | 0%nat => Ok empty_desktop
                   | _ => Ok {| readtext := Raise (ExExternal "RuntimeError") |}
                   end |} initial_state 1 (fun _ => no_text_error)
              {| readtext := Raise (ExExternal "RuntimeError") |}
              (ExExternal "RuntimeError"))
    as [_ [st' [Hrun [Htrace _]]]].
  - simpl. lia.
  - lia.
  - apply backoffs_of_one_second. lia.
  - intros [|i] Hi; [|lia]. exists empty_desktop. split; reflexivity.
  - reflexivity.
  - reflexivity.
  - intros g. discriminate.
  - exists st'. split; [exact Hrun|]. rewrite Htrace. reflexivity.
Defined.

Lemma total_app (a b : list Q) : (total (a ++ b) == total a + total b)%Q.
Proof.
  unfold total. induction a as [|v a IH]; simpl.
  - now rewrite Qplus_0_l.
  - rewrite IH. apply Qplus_assoc.
Qed.

Lemma total_backoff (d : Q) (k : nat) :
  (total (map (fun i => d * inject_Z (2 ^ i)) (range (Z.of_nat k)))
   == d * inject_Z (2 ^ Z.of_nat k - 1))%Q.
Proof.
  unfold range. rewrite Nat2Z.id. induction k as [|k IH].
  - simpl. unfold total. simpl. ring.
  - rewrite seq_S, !map_app, total_app, IH. cbn [map Nat.add].
    unfold total at 1. simpl fold_right.
    rewrite Nat2Z.inj_succ, Z.pow_succ_r by lia.
    replace (2 * 2 ^ Z.of_nat k - 1)
      with ((2 ^ Z.of_nat k - 1) + 2 ^ Z.of_nat k) by lia.
    rewrite inject_Z_plus. ring.
Qed.

(** The time spent sleeping by the loop when rounds 0..k-1 fail with a
    [GroundingError], their backoff delays are durations [time.sleep]
    takes, and round [k] succeeds, is [retry_delay * (2^k - 1)] seconds of
    backoff plus the 2 seconds of waiting for Notepad. *)
Theorem total_sleep_before_launch {L : Lowercase} {K : Clock}
    (cfg : Config) (w : world)
    (st : state) (k : nat) (errs : nat -> GroundingError) (img : image)
    (r : GroundingResult) :
  Z.of_nat k < max_retries cfg ->
  (k <= 1024)%nat ->
  backoffs_accepted cfg k ->
  (forall i, (i < k)%nat -> attempt_fails w (captures st + i) (errs i)) ->
  screens w (captures st + k) = Ok img ->
  ground_icon img "Notepad" = Ok r ->
  exists st' evs,
    retry_loop cfg w st = (st', Ok tt) /\
    trace st' = trace st ++ evs /\
    (total (sleeps evs) ==
     retry_delay cfg * inject_Z (2 ^ Z.of_nat k - 1) + 2)%Q.
Proof.
  intros Hk Hp Hacc Hfail Hc Hg.
  eexists. exists (flat_map (backoff_round cfg) (range (Z.of_nat k)) ++
                   [EvCapture (Z.of_nat k + 1); EvOcr;
                    EvDoubleClick (gx r) (gy r); EvSleep 2]).
  split; [|split].
  - unfold retry_loop, bind.
    rewrite (retry_loop_prefix cfg w st k errs Hk Hp Hacc Hfail).
    rewrite for_attempt_cons.
    rewrite (round_launched cfg w _ _ img r); [reflexivity| exact Hc | exact Hg].
  - cbn [trace]. now rewrite <- app_assoc.
  - rewrite sleeps_app, sleeps_backoff, total_app, total_backoff.
    simpl. unfold total. simpl. ring.
Qed.

Lemma total_sleep_before_launch_witness :
  exists st' evs,
    retry_loop three_tries settling_world initial_state = (st', Ok tt) /\
    trace st' = evs /\
    (total (sleeps evs) == 5)%Q.
Proof.
  destruct (total_sleep_before_launch three_tries settling_world initial_state 2
              (fun i => match i with
                        | 0%nat => no_text_error
                        | _ => not_found_error ["Recycle Bin"; "Chrome"]
                        end)
              desktop_with_notepad
              {| gx := 125; gy := 165; gconfidence := (9 # 10)%Q;
                 text_found := "NOTEPAD" |})
    as [st' [evs [Hrun [Htrace Htotal]]]].
  - simpl. lia.
  - lia.
  - apply backoffs_of_one_second. lia.
  - intros [|[|i]] Hi.
    + exists empty_desktop. split; reflexivity.
    + exists desktop_without_notepad. split; reflexivity.
    + lia.
  - reflexivity.
  - reflexivity.
  - exists st', evs. split; [exact Hrun|]. split; [exact Htrace|].
    rewrite Htotal. reflexivity.
Defined.

(** [wait_for_notepad] does not look at the screen: for a non-negative
    [timeout] it sleeps once, for the smaller of [timeout] and 2 seconds,
    and then reports success. *)
Theorem wait_for_notepad_is_a_capped_sleep {K : Clock}
    (timeout : Q) (st : state) :
  (0 <= timeout)%Q ->
  exists d,
    wait_for_notepad timeout st =
      ({| captures := captures st; trace := trace st ++ [EvSleep d] |},
       Ok true) /\
    (0 <= d)%Q /\ (d <= timeout)%Q /\ (d <= 2)%Q /\
    (d = timeout \/ d = 2%Q).
Proof.
  intros H0. exists (py_min2 timeout 2).
  assert (Hd : (0 <= py_min2 timeout 2)%Q /\ (py_min2 timeout 2 <= timeout)%Q /\
               (py_min2 timeout 2 <= 2)%Q /\
               (py_min2 timeout 2 = timeout \/ py_min2 timeout 2 = 2%Q)).
  { unfold py_min2. destruct (Qlt_le_dec 2 timeout) as [H|H].
    - split; [unfold Qle; simpl; lia|].
      split; [now apply Qlt_le_weak|]. split; [apply Qle_refl | now right].
    - split; [exact H0|]. split; [apply Qle_refl|].
      split; [exact H | now left]. }
  split; [|exact Hd].
  unfold wait_for_notepad, bind. rewrite sleep_accepted; [reflexivity|].
  apply accepted_short; [apply Hd|].
  apply Qle_trans with 2%Q; [apply Hd | unfold Qle; simpl; lia].
Qed.

Lemma wait_for_notepad_is_a_capped_sleep_witness :
  exists d,
    wait_for_notepad 5 initial_state =
      ({| captures := 0; trace := [EvSleep d] |}, Ok true) /\
    (0 <= d)%Q /\ (d <= 5)%Q /\ (d <= 2)%Q /\ (d = 5%Q \/ d = 2%Q).
Proof.
  apply (wait_for_notepad_is_a_capped_sleep 5 initial_state).
  unfold Qle. simpl. lia.
Defined.

(** * The JSONPlaceholder client *)

Lemma sleep_ok_short {K : Clock} (a : Z) :
  0 <= a <= 16 -> Api.sleep_ok (2 ^ a) = true.
Proof.
  intros Ha. unfold Api.sleep_ok.
  assert (H0 : 0 < 2 ^ a) by (apply Z.pow_pos_nonneg; lia).
  assert (H1 : 2 ^ a <= 2 ^ 16) by (apply Z.pow_le_mono_r; lia).
  change (2 ^ 16) with 65536 in H1.
  replace (0 <=? 2 ^ a) with true by (symmetry; apply Z.leb_le; lia).
  cbn [andb]. apply takes_short; unfold Qle; cbn [Qnum Qden inject_Z]; lia.
Qed.

(** No clock takes a sleep of 2^34 seconds or more. *)
Lemma sleep_ok_limit {K : Clock} (a : Z) :
  34 <= a -> Api.sleep_ok (2 ^ a) = false.
Proof.
  intros Ha. unfold Api.sleep_ok.
  destruct (takes (inject_Z (2 ^ a))) eqn:Ht; [|now rewrite andb_false_r].
  apply takes_limit in Ht. exfalso. revert Ht.
  assert (H1 : 2 ^ 34 <= 2 ^ a) by (apply Z.pow_le_mono_r; lia).
  change (2 ^ 34) with 17179869184 in H1.
  unfold Qlt, sleep_limit. cbn [Qnum Qden inject_Z].
  change (2 ^ 63) with 9223372036854775808.
  change (Z.pos (10 ^ 9)) with 1000000000. lia.
Qed.

Lemma backoffs_taken_short {K : Clock} (k : nat) :
  (k <= 17)%nat -> Api.backoffs_taken k.
Proof. intros Hk i Hi. apply sleep_ok_short. lia. Qed.

Lemma backoffs_taken_le {K : Clock} (k j : nat) :
  (j <= k)%nat -> Api.backoffs_taken k -> Api.backoffs_taken j.
Proof. intros Hj H i Hi. apply H. lia. Qed.

Lemma api_round_fails {K : Clock} (count max_retries : Z)
    (srv : Api.server) (attempt : Z) (st : Api.state) :
  Api.request_fails srv (Api.requests st) ->
  Api.sleep_ok (2 ^ attempt) = true ->
  attempt < max_retries - 1 ->
  Api.round count max_retries srv attempt st =
  ({| Api.requests := S (Api.requests st);
      Api.log := Api.log st ++ Api.backoff_round attempt |},
   Api.Return Api.Retry).
Proof.
  intros [what H] Ha Hlt. unfold Api.round. rewrite H.
  replace (attempt <? max_retries - 1) with true
    by (symmetry; apply Z.ltb_lt; lia).
  rewrite Ha.
  cbn [Api.requests Api.log]. now rewrite <- app_assoc.
Qed.

Lemma api_round_fails_last {K : Clock}
    (count max_retries : Z) (srv : Api.server)
    (attempt : Z) (st : Api.state) :
  Api.request_fails srv (Api.requests st) ->
  max_retries - 1 <= attempt ->
  Api.round count max_retries srv attempt st =
  ({| Api.requests := S (Api.requests st);
      Api.log := Api.log st ++ [Api.Get Api.url] |},
   Api.Return Api.Retry).
Proof.
  intros [what H] Hge. unfold Api.round. rewrite H.
  replace (attempt <? max_retries - 1) with false
    by (symmetry; apply Z.ltb_ge; lia).
  reflexivity.
Qed.

Lemma api_round_json {K : Clock} (count max_retries : Z) (srv : Api.server)
    (attempt : Z) (st : Api.state) (data : list Api.item) :
  Api.answers srv (Api.requests st) = Api.Json data ->
  Api.round count max_retries srv attempt st =
  ({| Api.requests := S (Api.requests st);
      Api.log := Api.log st ++ [Api.Get Api.url] |},
   Api.obind (Api.make_posts (slice_to data count))
             (fun posts => Api.Return (Api.Fetched posts))).
Proof. intros H. unfold Api.round. now rewrite H. Qed.

Lemma api_for_attempt_backoff {K : Clock}
    (count max_retries : Z) (srv : Api.server)
    (k : nat) :
  forall (a : nat) (st : Api.state) (rest : list Z),
    (forall i, (i < k)%nat -> Api.request_fails srv (Api.requests st + i)) ->
    Z.of_nat (a + k) <= max_retries - 1 ->
    (forall i, (i < k)%nat -> Api.sleep_ok (2 ^ Z.of_nat (a + i)) = true) ->
    Api.for_attempt count max_retries srv (map Z.of_nat (seq a k) ++ rest) st =
    Api.for_attempt count max_retries srv rest
      {| Api.requests := Api.requests st + k;
         Api.log := Api.log st ++
                    flat_map Api.backoff_round (map Z.of_nat (seq a k)) |}.
Proof.
  induction k as [|k IH]; intros a st rest Hfail Hsleep Hlim.
  - simpl. rewrite Nat.add_0_r, app_nil_r. now destruct st.
  - cbn [seq map app Api.for_attempt].
    rewrite api_round_fails;
      [| specialize (Hfail 0%nat); rewrite Nat.add_0_r in Hfail;
         apply Hfail; lia
       | specialize (Hlim 0%nat); rewrite Nat.add_0_r in Hlim;
         apply Hlim; lia
       | lia].
    rewrite IH.
    + cbn [Api.requests Api.log flat_map].
      replace (S (Api.requests st) + k)%nat
        with (Api.requests st + S k)%nat by lia.
      now rewrite <- !app_assoc.
    + cbn [Api.requests]. intros i Hi.
      replace (S (Api.requests st) + i)%nat
        with (Api.requests st + S i)%nat by lia.
      apply Hfail. lia.
    + lia.
    + intros i Hi. replace (S a + i)%nat with (a + S i)%nat by lia.
      apply Hlim. lia.
Qed.

Lemma api_fetch_prefix {K : Clock} (count max_retries : Z) (srv : Api.server)
    (st : Api.state) (k : nat) :
  Z.of_nat k < max_retries ->
  Api.backoffs_taken k ->
  (forall i, (i < k)%nat -> Api.request_fails srv (Api.requests st + i)) ->
  Api.fetch_posts count max_retries srv st =
  Api.for_attempt count max_retries srv
    (Z.of_nat k :: map Z.of_nat (seq (S k) (Z.to_nat max_retries - S k)))
    {| Api.requests := Api.requests st + k;
       Api.log := Api.log st ++
                  flat_map Api.backoff_round (range (Z.of_nat k)) |}.
Proof.
  intros Hk Hlim Hfail. unfold Api.fetch_posts.
  rewrite (range_split _ k Hk).
  rewrite (api_for_attempt_backoff count max_retries srv k 0 st);
    [|exact Hfail|simpl; lia|exact Hlim].
  unfold range. rewrite Nat2Z.id. reflexivity.
Qed.

Lemma api_sleeps_backoff (rounds : list Z) :
  Api.sleeps (flat_map Api.backoff_round rounds) = map (Z.pow 2) rounds.
Proof.
  induction rounds as [|i rounds IH]; simpl; [reflexivity | now rewrite IH].
Qed.

Lemma api_gets_backoff (rounds : list Z) :
  Api.gets (flat_map Api.backoff_round rounds) = List.length rounds.
Proof.
  induction rounds as [|i rounds IH]; simpl; [reflexivity | now rewrite IH].
Qed.

Lemma api_sleeps_app (a b : list Api.event) :
  Api.sleeps (a ++ b) = Api.sleeps a ++ Api.sleeps b.
Proof.
  induction a as [|e a IH]; simpl; [reflexivity|].
  destruct e; simpl; now rewrite IH.
Qed.

Lemma api_gets_app (a b : list Api.event) :
  Api.gets (a ++ b) = (Api.gets a + Api.gets b)%nat.
Proof.
  induction a as [|e a IH]; simpl; [reflexivity|].
  destruct e; simpl; now rewrite IH.
Qed.

Lemma sum_powers_of_two (k : nat) :
  fold_right Z.add 0 (map (Z.pow 2) (range (Z.of_nat k))) = 2 ^ Z.of_nat k - 1.
Proof.
  unfold range. rewrite Nat2Z.id. induction k as [|k IH]; [reflexivity|].
  rewrite seq_S, !map_app, fold_right_app. cbn [map fold_right Nat.add].
  rewrite Nat2Z.inj_succ, Z.pow_succ_r by lia.
  assert (G : forall (l : list Z) (c : Z),
             fold_right Z.add c l = fold_right Z.add 0 l + c).
  { induction l as [|v l IHl]; intros c; simpl; [lia|]. rewrite IHl. lia. }
  rewrite G, IH. lia.
Qed.

(** The first backoff sleep that the clock refuses: there is one among
    the first 35, since no clock takes 2^34 seconds. *)
Lemma first_refused_sleep {K : Clock} :
  exists j, (j <= 34)%nat /\ Api.backoffs_taken j /\
            Api.sleep_ok (2 ^ Z.of_nat j) = false.
Proof.
  assert (H : forall n,
            Api.backoffs_taken n \/
            exists j, (j < n)%nat /\ Api.backoffs_taken j /\
                      Api.sleep_ok (2 ^ Z.of_nat j) = false).
  { induction n as [|n [IH|[j [Hj Hr]]]].
    - left. intros i Hi. lia.
    - destruct (Api.sleep_ok (2 ^ Z.of_nat n)) eqn:E.
      + left. intros i Hi. destruct (Nat.eq_dec i n) as [->|Hne];
          [exact E | apply IH; lia].
      + right. exists n. split; [lia|]. now split.
    - right. exists j. split; [lia | exact Hr]. }
  destruct (H 35%nat) as [Hall|[j [Hj Hr]]].
  - specialize (Hall 34%nat ltac:(lia)).
    rewrite sleep_ok_limit in Hall by lia. discriminate.
  - exists j. split; [lia | exact Hr].
Qed.

(** The backoff sleeps of [fetch_posts] have a limit.  When the requests
    0..j fail, the sleeps after the requests before [j] are taken, attempts
    remain after request [j] and [time.sleep] refuses the sleep of [2^j]
    seconds, its exception leaves [fetch_posts] after [j + 1] requests and
    [j] sleeps: the remaining attempts are not made and no [APIError] is
    raised.  No clock takes 2^34 seconds, so that with more than 35
    attempts a server that stays down ends [fetch_posts] in this way, after
    35 requests at most. *)
Theorem fetch_posts_sleep_refused {K : Clock} (count max_retries : Z)
    (srv : Api.server) (st : Api.state) :
  (forall j : nat,
     Z.of_nat j < max_retries - 1 ->
     Api.backoffs_taken j ->
     Api.sleep_ok (2 ^ Z.of_nat j) = false ->
     (forall i, (i <= j)%nat -> Api.request_fails srv (Api.requests st + i)) ->
     Api.fetch_posts count max_retries srv st =
       ({| Api.requests := Api.requests st + j + 1;
           Api.log := Api.log st ++
                      flat_map Api.backoff_round (range (Z.of_nat j)) ++
                      [Api.Get Api.url] |},
        Api.Throw Api.OverflowError)) /\
  (36 <= max_retries ->
   (forall i, (i < Z.to_nat max_retries)%nat ->
              Api.request_fails srv (Api.requests st + i)) ->
   exists j : nat,
     (j <= 34)%nat /\
     snd (Api.fetch_posts count max_retries srv st) =
       Api.Throw Api.OverflowError /\
     Api.requests (fst (Api.fetch_posts count max_retries srv st)) =
       (Api.requests st + j + 1)%nat).
Proof.
  assert (Hone : forall j : nat,
     Z.of_nat j < max_retries - 1 ->
     Api.backoffs_taken j ->
     Api.sleep_ok (2 ^ Z.of_nat j) = false ->
     (forall i, (i <= j)%nat -> Api.request_fails srv (Api.requests st + i)) ->
     Api.fetch_posts count max_retries srv st =
       ({| Api.requests := Api.requests st + j + 1;
           Api.log := Api.log st ++
                      flat_map Api.backoff_round (range (Z.of_nat j)) ++
                      [Api.Get Api.url] |},
        Api.Throw Api.OverflowError)).
  { intros j Hj Htaken Hbad Hfail.
    rewrite (api_fetch_prefix count max_retries srv st j);
      [| lia | exact Htaken | intros i Hi; apply Hfail; lia].
    cbn [Api.for_attempt]. unfold Api.round. cbn [Api.requests Api.log].
    destruct (Hfail j (Nat.le_refl j)) as [what ->].
    replace (Z.of_nat j <? max_retries - 1) with true
      by (symmetry; apply Z.ltb_lt; lia).
    rewrite Hbad. rewrite <- app_assoc. do 2 f_equal. lia. }
  split; [exact Hone|].
  intros Hmax Hfail.
  destruct first_refused_sleep as [j [Hj [Htaken Hbad]]].
  exists j. split; [exact Hj|].
  rewrite (Hone j); [now split | lia | exact Htaken | exact Hbad |].
  intros i Hi. apply Hfail. lia.
Qed.

Lemma fetch_posts_sleep_refused_witness :
  exists j : nat,
    (j <= 34)%nat /\
    snd (Api.fetch_posts 10 36 Api.dead_server Api.start) =
      Api.Throw Api.OverflowError /\
    Api.requests (fst (Api.fetch_posts 10 36 Api.dead_server Api.start)) =
      (0 + j + 1)%nat.
Proof.
  apply (proj2 (fetch_posts_sleep_refused 10 36 Api.dead_server Api.start)).
  - lia.
  - intros i Hi. exists "ConnectionError". reflexivity.
Defined.

(** Backoff of [fetch_posts]: when the first [k] requests fail with a
    [RequestException], [time.sleep] takes the sleep after each of them,
    and request [k] is answered with a JSON array whose selected items all
    parse, [fetch_posts] returns those posts after [k + 1] requests and [k]
    sleeps of 1, 2, 4, ... seconds, [2^k - 1] seconds in all. *)
Theorem fetch_posts_backoff {K : Clock}
    (count max_retries : Z) (srv : Api.server)
    (st : Api.state) (k : nat) (data : list Api.item)
    (posts : list Api.Post) :
  Z.of_nat k < max_retries ->
  Api.backoffs_taken k ->
  (forall i, (i < k)%nat -> Api.request_fails srv (Api.requests st + i)) ->
  Api.answers srv (Api.requests st + k) = Api.Json data ->
  Api.make_posts (slice_to data count) = Api.Return posts ->
  exists st' evs,
    Api.fetch_posts count max_retries srv st = (st', Api.Return posts) /\
    Api.log st' = Api.log st ++ evs /\
    Api.requests st' = (Api.requests st + k + 1)%nat /\
    Api.gets evs = S k /\
    Api.sleeps evs = map (Z.pow 2) (range (Z.of_nat k)) /\
    fold_right Z.add 0 (Api.sleeps evs) = 2 ^ Z.of_nat k - 1.
Proof.
  intros Hk Hlim Hfail Hjson Hposts.
  eexists. exists (flat_map Api.backoff_round (range (Z.of_nat k)) ++
                   [Api.Get Api.url]).
  split; [|split; [|split]].
  - rewrite (api_fetch_prefix count max_retries srv st k Hk Hlim Hfail).
    cbn [Api.for_attempt].
    rewrite (api_round_json _ _ _ _ _ data) by exact Hjson.
    rewrite Hposts. reflexivity.
  - cbn [Api.log]. now rewrite <- app_assoc.
  - cbn [Api.requests]. lia.
  - rewrite api_gets_app, api_sleeps_app, api_gets_backoff, api_sleeps_backoff,
      length_range.
    simpl. rewrite app_nil_r. split; [lia|]. split; [reflexivity|].
    apply sum_powers_of_two.
Qed.

Lemma fetch_posts_backoff_witness :
  exists st' evs,
    Api.fetch_posts 2 3 Api.waking_server Api.start =
      (st', Api.Return
              [ {| Api.id := Api.JNum 1; Api.user_id := Api.JNum 1;
                   Api.title := Api.JStr "t1"; Api.body := Api.JStr "b1" |};
                {| Api.id := Api.JNum 2; Api.user_id := Api.JNum 1;
                   Api.title := Api.JStr "t2"; Api.body := Api.JStr "b2" |} ]) /\
    Api.log st' = evs /\
    Api.sleeps evs = [1; 2].
Proof.
  destruct (fetch_posts_backoff 2 3 Api.waking_server Api.start 2
              [Api.served 1 "t1" "b1"; Api.served 2 "t2" "b2";
               Api.served 3 "t3" "b3"]
              [ {| Api.id := Api.JNum 1; Api.user_id := Api.JNum 1;
                   Api.title := Api.JStr "t1"; Api.body := Api.JStr "b1" |};
                {| Api.id := Api.JNum 2; Api.user_id := Api.JNum 1;
                   Api.title := Api.JStr "t2"; Api.body := Api.JStr "b2" |} ])
    as [st' [evs [Hrun [Hlog [_ [_ [Hsleeps _]]]]]]].
  - simpl. lia.
  - apply backoffs_taken_short. lia.
  - intros [|[|i]] Hi; [eexists; reflexivity | eexists; reflexivity | lia].
  - reflexivity.
  - reflexivity.
  - exists st', evs. split; [exact Hrun|]. split; [exact Hlog|].
    rewrite Hsleeps. reflexivity.
Defined.

(** What parsing can raise: [KeyError] for a missing key, [TypeError] for
    an element that is not an object. *)
Lemma make_post_throws (it : Api.item) (e : Api.error) :
  Api.make_post it = Api.Throw e ->
  (exists key, e = Api.KeyError key) \/ e = Api.TypeError.
Proof.
  unfold Api.make_post, Api.getitem. destruct it as [d|].
  - destruct (Api.dict_get d "id"); simpl;
      [|intros [= <-]; left; now eexists].
    destruct (Api.dict_get d "userId"); simpl;
      [|intros [= <-]; left; now eexists].
    destruct (Api.dict_get d "title"); simpl;
      [|intros [= <-]; left; now eexists].
    destruct (Api.dict_get d "body"); simpl; [discriminate|].
    intros [= <-]; left; now eexists.
  - simpl. intros [= <-]. now right.
Qed.

Lemma make_posts_throws (items : list Api.item) (e : Api.error) :
  Api.make_posts items = Api.Throw e ->
  (exists key, e = Api.KeyError key) \/ e = Api.TypeError.
Proof.
  induction items as [|it rest IH]; simpl; [discriminate|].
  destruct (Api.make_post it) as [p|e'] eqn:E; simpl.
  - destruct (Api.make_posts rest) as [ps|e'']; simpl; [discriminate|].
    intros [= <-]. now apply IH.
  - intros [= <-]. now apply (make_post_throws it).
Qed.

Lemma make_posts_Forall2 (items : list Api.item) (posts : list Api.Post) :
  Api.make_posts items = Api.Return posts ->
  Forall2 (fun it p => Api.make_post it = Api.Return p) items posts.
Proof.
  revert posts. induction items as [|it rest IH]; intros posts; simpl.
  - intros [= <-]. constructor.
  - destruct (Api.make_post it) as [p|e] eqn:E; simpl; [|discriminate].
    destruct (Api.make_posts rest) as [ps|e]; simpl; [|discriminate].
    intros [= <-]. constructor; [exact E | now apply IH].
Qed.

Lemma length_slice_to {A : Type} (l : list A) (count : Z) :
  Z.of_nat (List.length (slice_to l count)) =
  if count <? 0
  then Z.max 0 (Z.of_nat (List.length l) + count)
  else Z.min count (Z.of_nat (List.length l)).
Proof.
  unfold slice_to. destruct (count <? 0) eqn:E; rewrite length_firstn.
  - apply Z.ltb_lt in E. lia.
  - apply Z.ltb_ge in E. lia.
Qed.

Lemma fetch_outcome_step {K : Clock} (count max_retries : Z) (srv : Api.server)
    (attempt : Z) (rest : list Z) (first made : nat)
    (out : Api.outcome (list Api.Post)) :
  Api.request_fails srv first ->
  (attempt < max_retries - 1 -> Api.sleep_ok (2 ^ attempt) = true) ->
  fetch_outcome count max_retries srv rest (S first) made out ->
  fetch_outcome count max_retries srv (attempt :: rest) first (S made) out.
Proof.
  intros Hfail Hsleep H.
  destruct out as [posts|[what|key| | |msg]]; cbn [fetch_outcome] in *.
  - destruct H as [n [data [-> [Ha Hp]]]]. exists (S n), data.
    split; [reflexivity|]. split; [|exact Hp].
    now replace (first + S n)%nat with (S first + n)%nat by lia.
  - exact H.
  - destruct H as [n [-> Hp]]. exists (S n). split; [reflexivity|].
    now replace (first + S n)%nat with (S first + n)%nat by lia.
  - destruct H as [n [-> Hp]]. exists (S n). split; [reflexivity|].
    now replace (first + S n)%nat with (S first + n)%nat by lia.
  - destruct H as [a [Hin Ha]]. exists a. split; [now right | exact Ha].
  - destruct H as [-> [Hm [Hall Hok]]]. split; [reflexivity|].
    split; [exact Hm|]. split.
    + intros [|i] Hi.
      * now rewrite Nat.add_0_r.
      * replace (first + S i)%nat with (S first + i)%nat by lia.
        apply Hall. simpl in Hi. lia.
    + intros a [<-|Hin] Ha; [now apply Hsleep | now apply Hok].
Qed.

(** What [fetch_posts] can do, whatever the server answers. *)
Lemma api_for_attempt_shape {K : Clock}
    (count max_retries : Z) (srv : Api.server)
    (rounds : list Z) :
  forall st : Api.state,
  exists evs,
    fst (Api.for_attempt count max_retries srv rounds st) =
      {| Api.requests := Api.requests st + Api.gets evs;
         Api.log := Api.log st ++ evs |} /\
    (Api.gets evs <= List.length rounds)%nat /\
    fetch_outcome count max_retries srv rounds (Api.requests st)
      (Api.gets evs) (snd (Api.for_attempt count max_retries srv rounds st)).
Proof.
  induction rounds as [|attempt rest IH]; intros st.
  - exists []. simpl. rewrite Nat.add_0_r, app_nil_r.
    split; [now destruct st|]. split; [lia|].
    split; [reflexivity|]. split; [reflexivity|].
    split; [intros i Hi; lia | intros a []].
  - assert (Hgo : forall pre,
              Api.gets pre = 1%nat ->
              Api.request_fails srv (Api.requests st) ->
              (attempt < max_retries - 1 -> Api.sleep_ok (2 ^ attempt) = true) ->
              exists evs,
                fst (Api.for_attempt count max_retries srv rest
                       {| Api.requests := S (Api.requests st);
                          Api.log := Api.log st ++ pre |}) =
                  {| Api.requests := Api.requests st + Api.gets evs;
                     Api.log := Api.log st ++ evs |} /\
                (Api.gets evs <= List.length (attempt :: rest))%nat /\
                fetch_outcome count max_retries srv (attempt :: rest)
                  (Api.requests st) (Api.gets evs)
                  (snd (Api.for_attempt count max_retries srv rest
                          {| Api.requests := S (Api.requests st);
                             Api.log := Api.log st ++ pre |}))).
    { intros pre Hpre Hfail Hsleep.
      destruct (IH {| Api.requests := S (Api.requests st);
                      Api.log := Api.log st ++ pre |})
        as [evs' [Hst [Hg Hr]]].
      cbn [Api.requests Api.log] in *.
      exists (pre ++ evs'). rewrite Hst, api_gets_app, Hpre, <- app_assoc.
      split; [f_equal; lia|]. split; [simpl; lia|].
      now apply fetch_outcome_step. }
    cbn [Api.for_attempt]. unfold Api.round.
    destruct (Api.answers srv (Api.requests st)) as [what|data|] eqn:Ha.
    + destruct (attempt <? max_retries - 1) eqn:Hlt.
      * destruct (Api.sleep_ok (2 ^ attempt)) eqn:Hok.
        -- cbn [Api.requests Api.log]. rewrite <- app_assoc.
           apply (Hgo ([Api.Get Api.url] ++ [Api.Sleep (2 ^ attempt)]));
             [reflexivity | now exists what | now intros _].
        -- exists [Api.Get Api.url]. cbn [fst snd Api.gets].
           rewrite Nat.add_1_r. split; [reflexivity|]. split; [simpl; lia|].
           exists attempt. split; [now left|].
           split; [now apply Z.ltb_lt | exact Hok].
      * apply (Hgo [Api.Get Api.url]);
          [reflexivity | now exists what |].
        apply Z.ltb_ge in Hlt. intros Hc. lia.
    + exists [Api.Get Api.url].
      destruct (Api.make_posts (slice_to data count)) as [posts|e] eqn:Hp;
        cbn [Api.obind fst snd Api.gets].
      * rewrite Nat.add_1_r. split; [reflexivity|]. split; [simpl; lia|].
        exists 0%nat, data. rewrite Nat.add_0_r. now repeat split.
      * rewrite Nat.add_1_r. split; [reflexivity|]. split; [simpl; lia|].
        destruct (make_posts_throws _ _ Hp) as [[key ->] | ->];
          exists 0%nat; rewrite Nat.add_0_r;
          (split; [reflexivity|]); left; now exists data.
    + exists [Api.Get Api.url]. cbn [fst snd Api.gets].
      rewrite Nat.add_1_r. split; [reflexivity|]. split; [simpl; lia|].
      exists 0%nat. rewrite Nat.add_0_r. split; [reflexivity|]. now right.
Qed.

Lemma length_range_Z (n : Z) : List.length (range n) = Z.to_nat n.
Proof. unfold range. now rewrite length_map, length_seq. Qed.

(** Whatever the server answers, [fetch_posts] makes at most [max_retries]
    requests (none when [max_retries] is zero or negative) and never lets a
    [RequestException] out. *)
Theorem fetch_posts_request_budget {K : Clock} (count max_retries : Z)
    (srv : Api.server) (st : Api.state) :
  exists evs,
    fst (Api.fetch_posts count max_retries srv st) =
      {| Api.requests := Api.requests st + Api.gets evs;
         Api.log := Api.log st ++ evs |} /\
    Z.of_nat (Api.gets evs) <= Z.max 0 max_retries /\
    forall what,
      snd (Api.fetch_posts count max_retries srv st) <>
      Api.Throw (Api.RequestException what).
Proof.
  unfold Api.fetch_posts.
  destruct (api_for_attempt_shape count max_retries srv (range max_retries) st)
    as [evs [Hst [Hg Hr]]].
  rewrite length_range_Z in Hg.
  exists evs. split; [exact Hst|]. split; [lia|].
  intros what Hw. rewrite Hw in Hr. exact Hr.
Qed.

Lemma in_range (n a : Z) : In a (range n) <-> 0 <= a < n.
Proof.
  unfold range. rewrite in_map_iff. split.
  - intros [i [<- Hi]]. apply in_seq in Hi. lia.
  - intros Ha. exists (Z.to_nat a). split; [lia|]. apply in_seq. lia.
Qed.

(** [fetch_posts] raises [APIError] exactly when every one of its
    [max_retries] requests fails with a [RequestException] and [time.sleep]
    takes the sleep after each of them but the last (always, when
    [max_retries] is zero or negative).  The message then names
    [max_retries], and exactly [max_retries] requests were made; what the
    failures were is not kept. *)
Theorem api_error_iff_every_request_fails {K : Clock} (count max_retries : Z)
    (srv : Api.server) (st : Api.state) :
  ((exists msg, snd (Api.fetch_posts count max_retries srv st) =
                Api.Throw (Api.APIError msg)) <->
   (Api.backoffs_taken (Z.to_nat (max_retries - 1)) /\
    forall i, (i < Z.to_nat max_retries)%nat ->
              Api.request_fails srv (Api.requests st + i))) /\
  (forall msg,
     snd (Api.fetch_posts count max_retries srv st) =
       Api.Throw (Api.APIError msg) ->
     msg = ("Failed to fetch posts after " ++ str_of_int max_retries
            ++ " attempts")%string /\
     Z.of_nat (Api.requests (fst (Api.fetch_posts count max_retries srv st)))
     = Z.of_nat (Api.requests st) + Z.max 0 max_retries).
Proof.
  unfold Api.fetch_posts.
  destruct (api_for_attempt_shape count max_retries srv (range max_retries) st)
    as [evs [Hst [Hg Hr]]].
  rewrite length_range_Z in *.
  assert (Hno : forall n,
            (forall i, (i < Z.to_nat max_retries)%nat ->
                       Api.request_fails srv (Api.requests st + i)) ->
            Api.gets evs = S n ->
            forall e, ~ parse_raises count srv (Api.requests st + n) e).
  { intros n Hall Hn e Hp. destruct (Hall n) as [what Hw]; [lia|].
    destruct Hp as [[data [Ha _]] | [Ha _]]; congruence. }
  split; [split|].
  - intros [msg Hm]. rewrite Hm in Hr.
    destruct Hr as [_ [_ [Hall Hok]]]. rewrite length_range_Z in Hall.
    split; [|exact Hall].
    intros i Hi. apply Hok; [apply in_range; lia | lia].
  - intros [Hle Hall].
    destruct (snd (Api.for_attempt count max_retries srv (range max_retries) st))
      as [posts|[what|key| | |msg]]; cbn [fetch_outcome] in Hr.
    + destruct Hr as [n [data [Hn [Ha _]]]].
      destruct (Hall n) as [what Hw]; [lia | congruence].
    + destruct Hr.
    + destruct Hr as [n [Hn Hp]]. now destruct (Hno n Hall Hn _ Hp).
    + destruct Hr as [n [Hn Hp]]. now destruct (Hno n Hall Hn _ Hp).
    + destruct Hr as [a [Hin [Ha Hbad]]]. apply in_range in Hin.
      specialize (Hle (Z.to_nat a) ltac:(lia)).
      rewrite Z2Nat.id in Hle by lia. congruence.
    + now exists msg.
  - intros msg Hm. rewrite Hm in Hr. destruct Hr as [Hn [-> _]].
    rewrite length_range_Z in Hn.
    split; [reflexivity|]. rewrite Hst. cbn [Api.requests]. lia.
Qed.

Lemma api_error_iff_every_request_fails_witness :
  exists msg,
    snd (Api.fetch_posts 10 2 Api.dead_server Api.start) =
    Api.Throw (Api.APIError msg).
Proof.
  apply (proj1 (api_error_iff_every_request_fails 10 2 Api.dead_server
                  Api.start)).
  split; [apply backoffs_taken_short; simpl; lia|]. intros i Hi. exists "ConnectionError". reflexivity.
Defined.

(** The schedule of a failed [fetch_posts]: when all [n + 1 = max_retries]
    requests fail and [time.sleep] takes the [n] sleeps between them, it
    makes [n + 1] requests and sleeps [n] times, 1, 2, 4, ... seconds after
    every request but the last, [2^n - 1] seconds in all, before raising
    [APIError]. *)
Theorem fetch_posts_gives_up {K : Clock}
    (count max_retries : Z) (srv : Api.server)
    (st : Api.state) (n : nat) :
  max_retries = Z.of_nat (S n) ->
  Api.backoffs_taken n ->
  (forall i, (i <= n)%nat -> Api.request_fails srv (Api.requests st + i)) ->
  exists st',
    Api.fetch_posts count max_retries srv st =
      (st', Api.Throw (Api.APIError
                         ("Failed to fetch posts after "
                          ++ str_of_int max_retries ++ " attempts")%string)) /\
    Api.log st' = Api.log st ++
                  flat_map Api.backoff_round (range (Z.of_nat n)) ++
                  [Api.Get Api.url] /\
    Api.sleeps (Api.log st') =
      Api.sleeps (Api.log st) ++ map (Z.pow 2) (range (Z.of_nat n)) /\
    fold_right Z.add 0 (map (Z.pow 2) (range (Z.of_nat n))) =
      2 ^ Z.of_nat n - 1.
Proof.
  intros Hmax Hlim Hfail. eexists. split; [|split; [|split]].
  - rewrite (api_fetch_prefix count max_retries srv st n);
      [| lia | exact Hlim | intros i Hi; apply Hfail; lia].
    cbn [Api.for_attempt].
    rewrite api_round_fails_last;
      [| cbn [Api.requests]; apply Hfail; lia | lia].
    replace (Z.to_nat max_retries - S n)%nat with 0%nat by lia.
    reflexivity.
  - cbn [Api.log]. rewrite <- app_assoc. reflexivity.
  - cbn [Api.log]. rewrite !api_sleeps_app, api_sleeps_backoff. simpl.
    now rewrite !app_nil_r.
  - apply sum_powers_of_two.
Qed.

Lemma fetch_posts_gives_up_witness :
  exists st',
    Api.fetch_posts 10 3 Api.dead_server Api.start =
      (st', Api.Throw (Api.APIError "Failed to fetch posts after 3 attempts")) /\
    Api.log st' = [Api.Get Api.url; Api.Sleep 1; Api.Get Api.url; Api.Sleep 2;
                   Api.Get Api.url].
Proof.
  destruct (fetch_posts_gives_up 10 3 Api.dead_server Api.start 2)
    as [st' [Hrun [Hlog _]]].
  - reflexivity.
  - apply backoffs_taken_short. lia.
  - intros i Hi. exists "ConnectionError". reflexivity.
  - exists st'. split; [exact Hrun|]. rewrite Hlog. reflexivity.
Defined.

(** The posts that [fetch_posts] returns are the items [data[:count]] of one
    response, parsed one for one and in order: the first [count] items (all
    of them when there are fewer) for a non-negative [count], and all but
    the last [-count] items for a negative one. *)
Theorem fetched_posts_follow_the_slice {K : Clock} (count max_retries : Z)
    (srv : Api.server) (st : Api.state) (posts : list Api.Post) :
  snd (Api.fetch_posts count max_retries srv st) = Api.Return posts ->
  exists n data,
    Api.answers srv (Api.requests st + n) = Api.Json data /\
    Forall2 (fun it p => Api.make_post it = Api.Return p)
            (slice_to data count) posts /\
    Z.of_nat (List.length posts) =
      (if count <? 0
       then Z.max 0 (Z.of_nat (List.length data) + count)
       else Z.min count (Z.of_nat (List.length data))).
Proof.
  unfold Api.fetch_posts. intros H.
  destruct (api_for_attempt_shape count max_retries srv (range max_retries) st)
    as [evs [_ [_ Hr]]].
  rewrite H in Hr. destruct Hr as [n [data [_ [Ha Hp]]]].
  exists n, data. split; [exact Ha|].
  pose proof (make_posts_Forall2 _ _ Hp) as HF. split; [exact HF|].
  rewrite <- length_slice_to. f_equal. symmetry.
  clear -HF. induction HF; simpl; congruence.
Qed.

Lemma fetched_posts_follow_the_slice_witness :
  exists n data,
    Api.answers Api.waking_server (0 + n) = Api.Json data /\
    Forall2 (fun it p => Api.make_post it = Api.Return p)
            (slice_to data (-1))
            [ {| Api.id := Api.JNum 1; Api.user_id := Api.JNum 1;
                 Api.title := Api.JStr "t1"; Api.body := Api.JStr "b1" |};
              {| Api.id := Api.JNum 2; Api.user_id := Api.JNum 1;
                 Api.title := Api.JStr "t2"; Api.body := Api.JStr "b2" |} ] /\
    2 = Z.max 0 (Z.of_nat (List.length data) + -1).
Proof.
  apply (fetched_posts_follow_the_slice (-1) 3 Api.waking_server Api.start).
  reflexivity.
Defined.

(** A selected item without one of the keys "id", "userId", "title", "body"
    makes [fetch_posts] raise [KeyError] for that key.  The loop catches
    [RequestException] only, so the error is not retried: no sleep and no
    further request follow, whatever number of attempts remain.  (The
    sleeps after the [k] failed requests before it are ones [time.sleep]
    takes.) *)
Theorem missing_key_is_not_retried {K : Clock} (count max_retries : Z)
    (srv : Api.server) (st : Api.state) (k : nat) (data : list Api.item)
    (pre post : list Api.item) (it : Api.item) (key : string) :
  Z.of_nat k < max_retries ->
  Api.backoffs_taken k ->
  (forall i, (i < k)%nat -> Api.request_fails srv (Api.requests st + i)) ->
  Api.answers srv (Api.requests st + k) = Api.Json data ->
  slice_to data count = pre ++ it :: post ->
  (forall a, In a pre -> exists p, Api.make_post a = Api.Return p) ->
  Api.make_post it = Api.Throw (Api.KeyError key) ->
  exists st',
    Api.fetch_posts count max_retries srv st =
      (st', Api.Throw (Api.KeyError key)) /\
    Api.log st' = Api.log st ++
                  flat_map Api.backoff_round (range (Z.of_nat k)) ++
                  [Api.Get Api.url] /\
    Api.requests st' = (Api.requests st + k + 1)%nat.
Proof.
  intros Hk Hlim Hfail Hjson Hslice Hpre Hit.
  assert (Hp : Api.make_posts (slice_to data count) =
               Api.Throw (Api.KeyError key)).
  { rewrite Hslice. clear Hslice. induction pre as [|a pre IH]; simpl.
    - now rewrite Hit.
    - destruct (Hpre a (or_introl eq_refl)) as [p ->]. simpl.
      rewrite IH by (intros b Hb; apply Hpre; now right). reflexivity. }
  eexists. split; [|split].
  - rewrite (api_fetch_prefix count max_retries srv st k Hk Hlim Hfail).
    cbn [Api.for_attempt].
    rewrite (api_round_json _ _ _ _ _ data) by exact Hjson.
    rewrite Hp. reflexivity.
  - cbn [Api.log]. now rewrite <- app_assoc.
  - cbn [Api.requests]. lia.
Qed.

Lemma missing_key_is_not_retried_witness :
  exists st',
    Api.fetch_posts 10 3 Api.sloppy_server Api.start =
      (st', Api.Throw (Api.KeyError "title")) /\
    Api.log st' = [Api.Get Api.url].
Proof.
  destruct (missing_key_is_not_retried 10 3 Api.sloppy_server Api.start 0
              [Api.served 1 "t1" "b1";
               Api.Obj [("userId", Api.JNum 1); ("id", Api.JNum 2);
                        ("body", Api.JStr "b2")];
               Api.served 3 "t3" "b3"]
              [Api.served 1 "t1" "b1"] [Api.served 3 "t3" "b3"]
              (Api.Obj [("userId", Api.JNum 1); ("id", Api.JNum 2);
                        ("body", Api.JStr "b2")])
              "title")
    as [st' [Hrun [Hlog _]]].
  - simpl. lia.
  - apply backoffs_taken_short. lia.
  - intros i Hi. lia.
  - reflexivity.
  - reflexivity.
  - intros a [<-|[]]. eexists. reflexivity.
  - reflexivity.
  - exists st'. split; [exact Hrun|]. rewrite Hlog. reflexivity.
Defined.

(** * The shared grounder *)

Lemma ground_icon_loaded {L : Lowercase} (img : image) (target : string)
    (p : Grounder.process) (g : Grounder.OCRGrounder) (rd : Grounder.Reader) :
  Grounder._grounder p = Some g ->
  Grounder._reader g = Some rd ->
  Grounder.ground_icon img target p = (p, ground_icon img target).
Proof.
  intros Hg Hr.
  unfold Grounder.ground_icon, Grounder.get_grounder, Grounder.ground_method,
    Grounder.reader.
  rewrite Hg, Hr. rewrite app_nil_r. destruct p; simpl in *. now subst.
Qed.

Lemma ground_icons_loaded {L : Lowercase} (calls : list (image * string))
    (p : Grounder.process) (g : Grounder.OCRGrounder) (rd : Grounder.Reader) :
  Grounder._grounder p = Some g ->
  Grounder._reader g = Some rd ->
  Grounder.ground_icons calls p =
  (p, map (fun c => ground_icon (fst c) (snd c)) calls).
Proof.
  intros Hg Hr. induction calls as [|[img target] rest IH]; [reflexivity|].
  cbn [Grounder.ground_icons].
  rewrite (ground_icon_loaded img target p g rd Hg Hr), IH. reflexivity.
Qed.

(** The OCR engine is built once per process.  Any sequence of [ground_icon]
    calls in a fresh process builds exactly one engine, for English, on the
    first call and none afterwards (none at all when there is no call), and
    every call answers what [ground] answers on its screenshot and
    target. *)
Theorem engine_is_built_once {L : Lowercase} (calls : list (image * string)) :
  snd (Grounder.ground_icons calls Grounder.fresh) =
    map (fun c => ground (fst c) (snd c)) calls /\
  Grounder.engines_built (fst (Grounder.ground_icons calls Grounder.fresh)) =
    match calls with
    | [] => []
    | _ :: _ => [["en"]]
    end.
Proof.
  destruct calls as [|[img target] rest]; [now split|].
  cbn [Grounder.ground_icons].
  unfold Grounder.ground_icon at 1. cbn.
  erewrite ground_icons_loaded by reflexivity.
  now split.
Qed.

(** The [reader] of a grounder is cached.  The first access builds one
    engine, for the grounder's languages, which are English when none or
    an empty list was given; a second access returns the same reader and
    builds nothing. *)
Theorem reader_is_cached (langs : option (list string)) :
  let g0 := Grounder.OCRGrounder_init langs in
  let '(g1, rd, built) := Grounder.reader g0 in
  built = [Grounder.languages g0] /\
  Grounder.reader_languages rd = Grounder.languages g0 /\
  Grounder.reader g1 = (g1, rd, []) /\
  Grounder.languages g1 = Grounder.languages g0 /\
  (Grounder.languages g0 <> []) /\
  (langs = None \/ langs = Some [] -> Grounder.languages g0 = ["en"]) /\
  (forall l ls, langs = Some (l :: ls) -> Grounder.languages g0 = l :: ls).
Proof.
  cbn. repeat split.
  - destruct langs as [[|l ls]|]; discriminate.
  - intros [->| ->]; reflexivity.
  - intros l ls ->. reflexivity.
Qed.

Lemma reader_is_cached_witness :
  Grounder.languages (Grounder.OCRGrounder_init (Some [])) = ["en"].
Proof.
  pose proof (reader_is_cached (Some [])) as H. cbn in H.
  destruct H as [_ [_ [_ [_ [_ [Hen _]]]]]].
  exact (Hen (or_intror eq_refl)).
Defined.

(** * Typing into Notepad *)

(** [type_text] leaves the clipboard as it found it.  With the clipboard
    route it copies [text], presses Ctrl+V, waits 0.1 s and copies the
    former clipboard back, so that exactly [text] is pasted, once; without
    it, its one action is to type [text] key by key, 0.02 s apart, and the
    clipboard is not touched. *)
Theorem type_text_restores_clipboard (text : string) (use_clipboard : bool)
    (d : Desk.desk) :
  Desk.clipboard (Desk.type_text text use_clipboard d) = Desk.clipboard d /\
  exists evs,
    Desk.log (Desk.type_text text use_clipboard d) = Desk.log d ++ evs /\
    evs = (if use_clipboard
           then [Desk.Copy text; Desk.Hotkey ["ctrl"; "v"];
                 Desk.Sleep (1 # 10); Desk.Copy (Desk.clipboard d)]
           else [Desk.Typewrite text (2 # 100)]) /\
    Desk.pasted (Desk.clipboard d) evs =
      (if use_clipboard then [text] else []) /\
    Desk.copies evs =
      (if use_clipboard then [text; Desk.clipboard d] else []).
Proof.
  destruct use_clipboard; cbn.
  - split; [reflexivity|].
    exists [Desk.Copy text; Desk.Hotkey ["ctrl"; "v"]; Desk.Sleep (1 # 10);
            Desk.Copy (Desk.clipboard d)].
    rewrite <- !app_assoc. now repeat split.
  - split; [reflexivity|]. exists [Desk.Typewrite text (2 # 100)].
    now repeat split.
Qed.

(** [process_post] pastes two texts into Notepad and returns the path
    [output_dir / "post_<id>.txt"].  In order: it waits, pastes the content
    "Title: <title>", an empty line, "<body>" and restores the clipboard;
    it creates the parent directory of the file; it presses Ctrl+S, waits,
    pastes the path and restores the clipboard; it presses Enter to confirm,
    and then Left and Enter for the question whether to overwrite.  Nothing
    else is pasted, and the clipboard ends as it began. *)
Theorem process_post_pastes_content_then_path {path : Type} `{PathOps path}
    (post_id title body : Api.json) (output_dir : path) (d : Desk.desk) :
  let filepath :=
    join output_dir ("post_" ++ py_str post_id ++ ".txt")%string in
  let content :=
    ("Title: " ++ py_str title ++ newline ++ newline ++ py_str body)%string in
  snd (Desk.process_post post_id title body output_dir d) = filepath /\
  Desk.clipboard (fst (Desk.process_post post_id title body output_dir d)) =
    Desk.clipboard d /\
  exists evs,
    Desk.log (fst (Desk.process_post post_id title body output_dir d)) =
      Desk.log d ++ evs /\
    evs = [ Desk.Sleep (3 # 10);
            Desk.Copy content; Desk.Hotkey ["ctrl"; "v"];
            Desk.Sleep (1 # 10); Desk.Copy (Desk.clipboard d);
            Desk.Mkdir (path_str (parent filepath));
            Desk.Hotkey ["ctrl"; "s"]; Desk.Sleep (1 # 2);
            Desk.Copy (path_str filepath); Desk.Hotkey ["ctrl"; "v"];
            Desk.Sleep (1 # 10); Desk.Copy (Desk.clipboard d);
            Desk.Sleep (2 # 10);
            Desk.Press "enter"; Desk.Sleep (3 # 10);
            Desk.Press "left"; Desk.Press "enter"; Desk.Sleep (2 # 10) ] /\
    Desk.pasted (Desk.clipboard d) evs = [content; path_str filepath] /\
    In (Desk.Mkdir (path_str (parent filepath))) evs.
Proof.
  cbn. split; [reflexivity|]. split; [reflexivity|].
  eexists. rewrite <- !app_assoc. split; [reflexivity|].
  split; [reflexivity|]. split; [reflexivity|]. simpl. tauto.
Qed.

(** * The workflow *)

Lemma pasted_app (clip : string) (a b : list Desk.event) :
  Desk.pasted clip (a ++ b) =
  Desk.pasted clip a ++ Desk.pasted (Desk.clip_after clip a) b.
Proof.
  revert clip. induction a as [|e a IH]; intros clip; [reflexivity|].
  destruct e; cbn [app Desk.pasted Desk.clip_after]; try apply IH.
  destruct (Desk.is_paste (Desk.Hotkey keys)); [simpl; f_equal|]; apply IH.
Qed.

Lemma clip_after_app (clip : string) (a b : list Desk.event) :
  Desk.clip_after clip (a ++ b) =
  Desk.clip_after (Desk.clip_after clip a) b.
Proof.
  revert clip. induction a as [|e a IH]; intros clip; [reflexivity|].
  destruct e; cbn [app Desk.clip_after]; apply IH.
Qed.

(** One post typed, saved and closed. *)
Lemma post_typed {path : Type} `{PathOps path} (output_dir : path)
    (post : Api.Post) (d : Desk.desk) :
  exists kevs,
    Desk.close_notepad
      (fst (Desk.process_post (Api.id post) (Api.title post) (Api.body post)
                              output_dir d)) =
      {| Desk.clipboard := Desk.clipboard d; Desk.log := Desk.log d ++ kevs |} /\
    Desk.pasted (Desk.clipboard d) kevs =
      [Main.content_of post; path_str (Main.file_of output_dir post)] /\
    Desk.clip_after (Desk.clipboard d) kevs = Desk.clipboard d.
Proof.
  eexists. split.
  - unfold Desk.close_notepad, Desk.process_post, Desk.save_file,
      Desk.type_content, Desk.type_text, Desk.copy, Desk.act.
    cbn [fst Desk.clipboard Desk.log]. rewrite <- !app_assoc. reflexivity.
  - split; reflexivity.
Qed.

Lemma launch_shape {L : Lowercase} {K : Clock}
    (cfg : Config) (w : world) (st : state) :
  exists evs,
    trace (fst (launch_notepad_from_desktop cfg w st)) = trace st ++ evs /\
    click_count evs =
      match snd (launch_notepad_from_desktop cfg w st) with
      | Ok _ => 1%nat
      | Raise _ => 0%nat
      end.
Proof.
  rewrite launch_unfold.
  destruct (retry_loop_shape cfg w
              {| captures := captures st;
                 trace := trace st ++
                          [EvShowDesktop; EvSleep (1 # 2); EvSleep (1 # 2)] |})
    as [evs [Hst [_ Hr]]].
  exists ([EvShowDesktop; EvSleep (1 # 2); EvSleep (1 # 2)] ++ evs).
  rewrite Hst. cbn [trace]. rewrite <- app_assoc. split; [reflexivity|].
  rewrite click_count_app. simpl.
  destruct (snd (retry_loop cfg w _)).
  - destruct Hr as [pre [cx [cy [-> Hpre]]]]. rewrite click_count_app, Hpre.
    reflexivity.
  - apply Hr.
Qed.

(** What the loop over the posts can do, whatever the world answers:
    [done] posts were typed before it stopped, and it stopped early only
    because the next launch raised. *)
Lemma for_post_shape {L : Lowercase} {K : Clock} {path : Type} `{PathOps path}
    (cfg : Config)
    (output_dir : path) (w : world) (posts : list Api.Post) :
  forall m : Main.machine,
  exists (done : nat) (evs : list event) (kevs : list Desk.event),
    (done <= List.length posts)%nat /\
    Main.api (fst (Main.for_post cfg output_dir w posts m)) = Main.api m /\
    trace (Main.screen (fst (Main.for_post cfg output_dir w posts m))) =
      trace (Main.screen m) ++ evs /\
    click_count evs = done /\
    Main.keys (fst (Main.for_post cfg output_dir w posts m)) =
      {| Desk.clipboard := Desk.clipboard (Main.keys m);
         Desk.log := Desk.log (Main.keys m) ++ kevs |} /\
    Desk.pasted (Desk.clipboard (Main.keys m)) kevs =
      flat_map (fun p => [Main.content_of p;
                          path_str (Main.file_of output_dir p)])
               (firstn done posts) /\
    Desk.clip_after (Desk.clipboard (Main.keys m)) kevs =
      Desk.clipboard (Main.keys m) /\
    (forall i, (i < done)%nat ->
       snd (launch_notepad_from_desktop cfg w
              (Main.after_launches cfg w i (Main.screen m))) = Ok tt) /\
    ((snd (Main.for_post cfg output_dir w posts m) = 0 /\
      done = List.length posts /\
      Main.screen (fst (Main.for_post cfg output_dir w posts m)) =
        Main.after_launches cfg w done (Main.screen m)) \/
     (snd (Main.for_post cfg output_dir w posts m) = 1 /\
      (done < List.length posts)%nat /\
      (exists e,
         snd (launch_notepad_from_desktop cfg w
                (Main.after_launches cfg w done (Main.screen m))) = Raise e) /\
      Main.screen (fst (Main.for_post cfg output_dir w posts m)) =
        Main.after_launches cfg w (S done) (Main.screen m))).
Proof.
  induction posts as [|post rest IH]; intros m.
  - exists 0%nat, [], []. cbn. rewrite !app_nil_r.
    split; [lia|]. split; [reflexivity|]. split; [reflexivity|].
    split; [reflexivity|]. split; [now destruct (Main.keys m)|].
    split; [reflexivity|]. split; [reflexivity|].
    split; [intros i Hi; lia|]. left. now repeat split.
  - cbn [Main.for_post].
    destruct (launch_shape cfg w (Main.screen m)) as [evs [Htr Hclick]].
    destruct (launch_notepad_from_desktop cfg w (Main.screen m))
      as [s' [u|e]] eqn:Hl; cbn [fst snd] in Htr, Hclick.
    + destruct (post_typed output_dir post (Main.keys m))
        as [kevs [Hk [Hp Hc]]].
      destruct (Desk.process_post (Api.id post) (Api.title post)
                  (Api.body post) output_dir (Main.keys m)) as [k1 fp].
      cbn [fst] in Hk. rewrite Hk.
      match goal with |- context [Main.for_post _ _ _ rest ?m1] =>
        destruct (IH m1)
          as [done [evs' [kevs' [Hd [Ha [Ht [Hcl [Hkeys [Hpa [Hca [Hok
                Hcode]]]]]]]]]]]
      end.
      cbn [Main.api Main.screen Main.keys Desk.clipboard Desk.log] in *.
      exists (S done), (evs ++ evs'), (kevs ++ kevs').
      split; [simpl; lia|]. split; [exact Ha|].
      split; [rewrite Ht, Htr; now rewrite <- app_assoc|].
      split; [rewrite click_count_app; lia|].
      split; [rewrite Hkeys; now rewrite <- app_assoc|].
      split; [rewrite pasted_app, Hp, Hc, Hpa; reflexivity|].
      split; [rewrite clip_after_app, Hc; exact Hca|].
      split.
      * intros [|i] Hi; cbn [Main.after_launches]; rewrite ?Hl; cbn [fst snd].
        -- now destruct u.
        -- apply Hok. lia.
      * cbn [Main.after_launches]. rewrite Hl. cbn [fst].
        destruct Hcode as [[H0 [Hn Hs]]|[H1 [Hn [He Hs]]]]; [left | right].
        -- split; [assumption|]. split; [simpl; lia | exact Hs].
        -- split; [assumption|]. split; [simpl; lia|]. now split.
    + exists 0%nat, evs, []. cbn [firstn flat_map Desk.pasted Desk.clip_after
                                  fst snd Main.api Main.screen Main.keys
                                  Main.after_launches List.length].
      rewrite app_nil_r, Hl. cbn [fst snd].
      split; [lia|]. split; [reflexivity|]. split; [exact Htr|].
      split; [exact Hclick|]. split; [now destruct (Main.keys m)|].
      split; [reflexivity|]. split; [reflexivity|].
      split; [intros i Hi; lia|]. right. split; [reflexivity|].
      split; [lia|]. split; [now exists e | reflexivity].
Qed.

Lemma fetch_posts_no_request_exception {K : Clock} (count max_retries : Z)
    (srv : Api.server) (st : Api.state) (what : string) :
  snd (Api.fetch_posts count max_retries srv st) <>
  Api.Throw (Api.RequestException what).
Proof.
  unfold Api.fetch_posts.
  destruct (api_for_attempt_shape count max_retries srv (range max_retries) st)
    as [evs [_ [_ Hr]]].
  intros Hw. rewrite Hw in Hr. exact Hr.
Qed.

Lemma fetch_all_fail {K : Clock} (count max_retries : Z) (srv : Api.server)
    (st : Api.state) :
  Api.backoffs_taken (Z.to_nat (max_retries - 1)) ->
  (forall i, (i < Z.to_nat max_retries)%nat ->
             Api.request_fails srv (Api.requests st + i)) ->
  exists msg,
    snd (Api.fetch_posts count max_retries srv st) =
    Api.Throw (Api.APIError msg).
Proof.
  intros Hle Hall. unfold Api.fetch_posts.
  destruct (api_for_attempt_shape count max_retries srv (range max_retries) st)
    as [evs [_ [Hg Hr]]].
  rewrite length_range_Z in *.
  assert (Hno : forall n e,
            Api.gets evs = S n ->
            ~ parse_raises count srv (Api.requests st + n) e).
  { intros n e Hn Hp. destruct (Hall n) as [what Hw]; [lia|].
    destruct Hp as [[data [Ha _]] | [Ha _]]; congruence. }
  destruct (snd (Api.for_attempt count max_retries srv (range max_retries) st))
    as [posts|[what|key| | |msg]]; cbn [fetch_outcome] in Hr.
  - destruct Hr as [n [data [Hn [Ha _]]]].
    destruct (Hall n) as [what Hw]; [lia | congruence].
  - destruct Hr.
  - destruct Hr as [n [Hn Hp]]. now destruct (Hno n _ Hn Hp).
  - destruct Hr as [n [Hn Hp]]. now destruct (Hno n _ Hn Hp).
  - destruct Hr as [a [Hin [Ha Hbad]]]. apply in_range in Hin.
    specialize (Hle (Z.to_nat a) ltac:(lia)).
    rewrite Z2Nat.id in Hle by lia. congruence.
  - now exists msg.
Qed.

(** [run_automation] ends in one of three ways, whatever the server and the
    desktop do: it returns 0, it returns 1, or an exception of [fetch_posts]
    other than [APIError] leaves it uncaught, before anything was done on
    the desktop: a [KeyError] or a [TypeError] from an answer that is not an
    array of posts, or the [OverflowError] of a backoff sleep that
    [time.sleep] refuses.  No [APIError], and no [GroundingError] or other exception of a
    launch, leaves it. *)
Theorem run_automation_outcomes {L : Lowercase} {K : Clock} {path : Type} `{PathOps path}
    (cfg : Config)
    (output_dir : path) (srv : Api.server) (w : world) (num_posts : Z)
    (m : Main.machine) :
  snd (Main.run_automation cfg output_dir srv w num_posts m) = Api.Return 0 \/
  snd (Main.run_automation cfg output_dir srv w num_posts m) = Api.Return 1 \/
  (exists e,
     snd (Main.run_automation cfg output_dir srv w num_posts m) =
       Api.Throw e /\
     snd (Api.fetch_posts num_posts (max_retries cfg) srv (Main.api m)) =
       Api.Throw e /\
     ((exists key, e = Api.KeyError key) \/ e = Api.TypeError \/
      e = Api.OverflowError) /\
     Main.screen (fst (Main.run_automation cfg output_dir srv w num_posts m)) =
       Main.screen m /\
     Main.keys (fst (Main.run_automation cfg output_dir srv w num_posts m)) =
       Main.keys m).
Proof.
  unfold Main.run_automation.
  pose proof (fetch_posts_no_request_exception num_posts (max_retries cfg) srv
                (Main.api m)) as Hreq.
  destruct (Api.fetch_posts num_posts (max_retries cfg) srv (Main.api m))
    as [a' [posts|[what|key| | |msg]]]; cbn [snd] in Hreq.
  - destruct (for_post_shape cfg output_dir w posts
                {| Main.api := a'; Main.screen := Main.screen m;
                   Main.keys := Main.keys m |})
      as [done [evs [kevs [_ [_ [_ [_ [_ [_ [_ [_ Hcode]]]]]]]]]]].
    destruct (Main.for_post cfg output_dir w posts _) as [m' code].
    cbn [fst snd] in *.
    destruct Hcode as [[-> _]|[-> _]]; [now left | right; now left].
  - now destruct (Hreq what).
  - right. right. exists (Api.KeyError key). cbn [fst snd Main.screen Main.keys].
    repeat split. left. now exists key.
  - right. right. exists Api.TypeError. cbn [fst snd Main.screen Main.keys].
    repeat split. right. now left.
  - right. right. exists Api.OverflowError.
    cbn [fst snd Main.screen Main.keys]. repeat split. right. now right.
  - right. now left.
Qed.

(** When every request of [fetch_posts] fails and [time.sleep] takes the
    sleeps between them, [run_automation] returns 1 and has not touched the
    desktop: no capture, no click, no key. *)
Theorem run_automation_without_posts {L : Lowercase} {K : Clock} {path : Type} `{PathOps path}
    (cfg : Config) (output_dir : path) (srv : Api.server) (w : world)
    (num_posts : Z) (m : Main.machine) :
  Api.backoffs_taken (Z.to_nat (max_retries cfg - 1)) ->
  (forall i, (i < Z.to_nat (max_retries cfg))%nat ->
             Api.request_fails srv (Api.requests (Main.api m) + i)) ->
  snd (Main.run_automation cfg output_dir srv w num_posts m) = Api.Return 1 /\
  Main.screen (fst (Main.run_automation cfg output_dir srv w num_posts m)) =
    Main.screen m /\
  Main.keys (fst (Main.run_automation cfg output_dir srv w num_posts m)) =
    Main.keys m.
Proof.
  intros Hle Hall. unfold Main.run_automation.
  destruct (fetch_all_fail num_posts (max_retries cfg) srv (Main.api m) Hle Hall)
    as [msg Hm].
  destruct (Api.fetch_posts num_posts (max_retries cfg) srv (Main.api m))
    as [a' out]. cbn [snd] in Hm. subst out. now repeat split.
Qed.

Lemma run_automation_without_posts_witness :
  snd (Main.run_automation three_tries ["out"] Api.dead_server steady_world 10
         Main.boot) = Api.Return 1 /\
  Main.screen (fst (Main.run_automation three_tries ["out"] Api.dead_server
                      steady_world 10 Main.boot)) = initial_state /\
  Main.keys (fst (Main.run_automation three_tries ["out"] Api.dead_server
                    steady_world 10 Main.boot)) =
    {| Desk.clipboard := ""; Desk.log := [] |}.
Proof.
  apply (run_automation_without_posts three_tries ["out"] Api.dead_server
           steady_world 10 Main.boot).
  - apply backoffs_taken_short. simpl. lia.
  - intros i Hi. exists "ConnectionError". reflexivity.
Defined.

(** Accounting of [run_automation]: once [fetch_posts] has returned the
    posts, they are handled in order, one launch each, and the run stops at
    the first post whose launch raises.  Each of the first [done] launches
    returned; for each of these posts there was one double click, and what
    was pasted into Notepad is, post by post, the content and then the file
    path; the clipboard ends as it began.  The exit code is 0 exactly when
    every post was handled; it is 1 exactly when [done] is less than the
    number of posts, and then launch number [done] raised an exception and
    nothing was done after it. *)
Theorem run_automation_accounting {L : Lowercase} {K : Clock} {path : Type} `{PathOps path}
    (cfg : Config) (output_dir : path) (srv : Api.server) (w : world)
    (num_posts : Z) (m : Main.machine) (a' : Api.state)
    (posts : list Api.Post) :
  Api.fetch_posts num_posts (max_retries cfg) srv (Main.api m) =
    (a', Api.Return posts) ->
  exists (done : nat) (evs : list event) (kevs : list Desk.event),
    (done <= List.length posts)%nat /\
    trace (Main.screen
             (fst (Main.run_automation cfg output_dir srv w num_posts m))) =
      trace (Main.screen m) ++ evs /\
    click_count evs = done /\
    Main.keys (fst (Main.run_automation cfg output_dir srv w num_posts m)) =
      {| Desk.clipboard := Desk.clipboard (Main.keys m);
         Desk.log := Desk.log (Main.keys m) ++ kevs |} /\
    Desk.pasted (Desk.clipboard (Main.keys m)) kevs =
      flat_map (fun p => [Main.content_of p;
                          path_str (Main.file_of output_dir p)])
               (firstn done posts) /\
    (forall i, (i < done)%nat ->
       snd (launch_notepad_from_desktop cfg w
              (Main.after_launches cfg w i (Main.screen m))) = Ok tt) /\
    ((snd (Main.run_automation cfg output_dir srv w num_posts m) =
        Api.Return 0 /\ done = List.length posts /\
      Main.screen (fst (Main.run_automation cfg output_dir srv w num_posts m))
        = Main.after_launches cfg w done (Main.screen m)) \/
     (snd (Main.run_automation cfg output_dir srv w num_posts m) =
        Api.Return 1 /\ (done < List.length posts)%nat /\
      (exists e,
         snd (launch_notepad_from_desktop cfg w
                (Main.after_launches cfg w done (Main.screen m))) = Raise e) /\
      Main.screen (fst (Main.run_automation cfg output_dir srv w num_posts m))
        = Main.after_launches cfg w (S done) (Main.screen m))).
Proof.
  intros Hf. unfold Main.run_automation. rewrite Hf.
  destruct (for_post_shape cfg output_dir w posts
              {| Main.api := a'; Main.screen := Main.screen m;
                 Main.keys := Main.keys m |})
    as [done [evs [kevs [Hd [_ [Ht [Hc [Hk [Hp [_ [Hok Hcode]]]]]]]]]]].
  destruct (Main.for_post cfg output_dir w posts _) as [m' code].
  cbn [fst snd Main.api Main.screen Main.keys] in *.
  exists done, evs, kevs. repeat (split; [assumption|]).
  destruct Hcode as [[-> [Hn Hs]]|[-> [Hn [He Hs]]]]; [left | right];
    (split; [reflexivity|]); repeat (split; [assumption|]); assumption.
Qed.

Lemma run_automation_accounting_witness :
  exists (done : nat) (evs : list event) (kevs : list Desk.event),
    (done <= 2)%nat /\
    trace (Main.screen
             (fst (Main.run_automation three_tries ["out"] Api.waking_server
                     vanishing_world 2 Main.boot))) = [] ++ evs /\
    click_count evs = done /\
    Main.keys (fst (Main.run_automation three_tries ["out"] Api.waking_server
                      vanishing_world 2 Main.boot)) =
      {| Desk.clipboard := ""; Desk.log := [] ++ kevs |} /\
    Desk.pasted "" kevs =
      flat_map (fun p => [Main.content_of p;
                          path_str (Main.file_of ["out"] p)])
        (firstn done
           [ {| Api.id := Api.JNum 1; Api.user_id := Api.JNum 1;
                Api.title := Api.JStr "t1"; Api.body := Api.JStr "b1" |};
             {| Api.id := Api.JNum 2; Api.user_id := Api.JNum 1;
                Api.title := Api.JStr "t2"; Api.body := Api.JStr "b2" |} ]) /\
    (forall i, (i < done)%nat ->
       snd (launch_notepad_from_desktop three_tries vanishing_world
              (Main.after_launches three_tries vanishing_world i
                 initial_state)) = Ok tt) /\
    ((snd (Main.run_automation three_tries ["out"] Api.waking_server
             vanishing_world 2 Main.boot) = Api.Return 0 /\ done = 2%nat /\
      Main.screen (fst (Main.run_automation three_tries ["out"]
                          Api.waking_server vanishing_world 2 Main.boot))
        = Main.after_launches three_tries vanishing_world done initial_state) \/
     (snd (Main.run_automation three_tries ["out"] Api.waking_server
             vanishing_world 2 Main.boot) = Api.Return 1 /\ (done < 2)%nat /\
      (exists e,
         snd (launch_notepad_from_desktop three_tries vanishing_world
                (Main.after_launches three_tries vanishing_world done
                   initial_state)) = Raise e) /\
      Main.screen (fst (Main.run_automation three_tries ["out"]
                          Api.waking_server vanishing_world 2 Main.boot))
        = Main.after_launches three_tries vanishing_world (S done)
            initial_state)).
Proof.
  apply (run_automation_accounting three_tries ["out"] Api.waking_server
           vanishing_world 2 Main.boot
           {| Api.requests := 3;
              Api.log := [Api.Get Api.url; Api.Sleep 1; Api.Get Api.url;
                          Api.Sleep 2; Api.Get Api.url] |}
           [ {| Api.id := Api.JNum 1; Api.user_id := Api.JNum 1;
                Api.title := Api.JStr "t1"; Api.body := Api.JStr "b1" |};
             {| Api.id := Api.JNum 2; Api.user_id := Api.JNum 1;
                Api.title := Api.JStr "t2"; Api.body := Api.JStr "b2" |} ]).
  reflexivity.
Defined.
